(** * LocalVault: a browser-local password list manager

    Shallow embedding of the JavaScript sources

      - [src/script.js]            (module [ScriptJs]), and
      - [src/unnamed/part_000]     (module [Part000]; the second, later
        revision contained in that file, lines 435-1294),

    together with the properties of the natural-language specification that
    concern the import/export codec, the list transform layer (sort, filter)
    and the cache/store discipline of the CRUD operations.

    Conventions of the embedding.

    - A JavaScript string is a [string]: a sequence of code units.  The
      model covers the code units 0..255 (the Latin-1 part of UTF-16), on
      which [trim], [toLowerCase] and the relational operators are written
      out exactly as ECMAScript defines them.
    - A JavaScript value stored in an entry is a [Val]; numbers are the
      integer-valued ones, plus [NaN].
    - A plain object is a finite map from property names to values.
    - The IndexedDB object store is modelled after the W3C algorithm for
      an object store created with [{ keyPath: 'id', autoIncrement: true }]
      (see [openDB] in both sources). *)

From Stdlib Require Import ZArith NArith Ascii String List Lia DecimalString.
From stdpp Require Import base option list gmap strings sorting.

Local Open Scope string_scope.
Local Open Scope list_scope.

(* ===================================================================== *)
(** * Strings *)
(* ===================================================================== *)

Module JsString.

(** Named code units.  *)
Definition LF : ascii := "010"%char.
Definition CR : ascii := "013"%char.
Definition DQUOTE : ascii := "034"%char.
Definition COMMA : ascii := ","%char.

Definition str1 (c : ascii) : string := String c EmptyString.
Definition CRLF : string := String CR (String LF EmptyString).

(** ECMAScript [WhiteSpace] and [LineTerminator] code points below 256:
    TAB, LF, VT, FF, CR, SP and NBSP.  These are what [trim] strips. *)
Definition isWhiteSpace (c : ascii) : bool :=
  let n := N_of_ascii c in
  ((n =? 9) || (n =? 10) || (n =? 11) || (n =? 12) || (n =? 13)
   || (n =? 32) || (n =? 160))%N.

(** [String.prototype.trimStart]. *)
Fixpoint trimStart (s : string) : string :=
  match s with
  | EmptyString => EmptyString
  | String c s' => if isWhiteSpace c then trimStart s' else s
  end.

(** [String.prototype.trimEnd]. *)
Fixpoint trimEnd (s : string) : string :=
  match s with
  | EmptyString => EmptyString
  | String c s' =>
      match trimEnd s' with
      | EmptyString => if isWhiteSpace c then EmptyString else str1 c
      | r => String c r
      end
  end.

(** [String.prototype.trim]. *)
Definition trim (s : string) : string := trimEnd (trimStart s).

(** [String.prototype.toLowerCase] on one code unit: A-Z, and the
    Latin-1 capitals U+00C0..U+00DE except the multiplication sign. *)
Definition lowerChar (c : ascii) : ascii :=
  let n := N_of_ascii c in
  if ((65 <=? n) && (n <=? 90))%N then ascii_of_N (n + 32)
  else if ((192 <=? n) && (n <=? 222) && negb (n =? 215))%N
       then ascii_of_N (n + 32)
  else c.

Fixpoint toLowerCase (s : string) : string :=
  match s with
  | EmptyString => EmptyString
  | String c s' => String (lowerChar c) (toLowerCase s')
  end.

(** [s.split(sep)] for a one-character separator; never empty:
    the empty string splits into one empty field. *)
Fixpoint split (sep : ascii) (s : string) : list string :=
  match s with
  | EmptyString => [EmptyString]
  | String c s' =>
      if Ascii.eqb c sep then EmptyString :: split sep s'
      else match split sep s' with
           | h :: t => String c h :: t
           | [] => [str1 c]
           end
  end.

(** [parts.join(sep)]. *)
Fixpoint join (sep : string) (parts : list string) : string :=
  match parts with
  | [] => EmptyString
  | [p] => p
  | p :: rest => p ++ sep ++ join sep rest
  end.

(** [s.includes(t)]: [t] occurs in [s] as a substring. *)
Fixpoint includes (s t : string) : bool :=
  String.prefix t s ||
  match s with
  | EmptyString => false
  | String _ s' => includes s' t
  end.

(** [s.includes(c)] for a single character. *)
Fixpoint includesChar (s : string) (c : ascii) : bool :=
  match s with
  | EmptyString => false
  | String d s' => Ascii.eqb d c || includesChar s' c
  end.

(** [s.replace(/\r\n/g, '\n')]. *)
Fixpoint replaceCRLF (s : string) : string :=
  match s with
  | EmptyString => EmptyString
  | String c s' =>
      if Ascii.eqb c CR then
        match s' with
        | String d s'' =>
            if Ascii.eqb d LF then String LF (replaceCRLF s'')
            else String c (replaceCRLF s')
        | EmptyString => String c EmptyString
        end
      else String c (replaceCRLF s')
  end.

(** [s.replace(/\r/g, '\n')]. *)
Fixpoint replaceCR (s : string) : string :=
  match s with
  | EmptyString => EmptyString
  | String c s' =>
      String (if Ascii.eqb c CR then LF else c) (replaceCR s')
  end.

(** The global replace of [csvEscape]: every double-quote character is
    doubled. *)
Fixpoint doubleQuotes (s : string) : string :=
  match s with
  | EmptyString => EmptyString
  | String c s' =>
      if Ascii.eqb c DQUOTE
      then String DQUOTE (String DQUOTE (doubleQuotes s'))
      else String c (doubleQuotes s')
  end.

(** The relational operators on strings compare code units
    lexicographically; [String.compare] is that order. *)
Definition lt (a b : string) : bool := String.ltb a b.
Definition gt (a b : string) : bool := String.ltb b a.

(** A string that [trim] leaves alone: it neither starts nor ends with
    white space. *)
Definition noLeadingWs (s : string) : Prop :=
  match s with
  | EmptyString => True
  | String c _ => isWhiteSpace c = false
  end.

Fixpoint lastChar (s : string) : option ascii :=
  match s with
  | EmptyString => None
  | String c EmptyString => Some c
  | String _ s' => lastChar s'
  end.

Definition noTrailingWs (s : string) : Prop :=
  match lastChar s with
  | None => True
  | Some c => isWhiteSpace c = false
  end.

Definition trimmed (s : string) : Prop := noLeadingWs s /\ noTrailingWs s.

End JsString.

(* ===================================================================== *)
(** * Values and objects *)
(* ===================================================================== *)

Module Js.
Import JsString.

(** The values an entry field can hold. *)
Inductive Val : Type :=
| VUndefined
| VNull
| VBool (b : bool)
| VNum (n : Z)
| VNaN
| VStr (s : string).

#[global] Instance Val_eq_dec : EqDecision Val.
Proof. solve_decision. Defined.

(** [ToBoolean]: the falsy values are [undefined], [null], [false],
    [0], [NaN] and the empty string. *)
Definition truthy (v : Val) : bool :=
  match v with
  | VUndefined | VNull | VNaN => false
  | VBool b => b
  | VNum n => negb (n =? 0)%Z
  | VStr s => negb (String.eqb s EmptyString)
  end.

(** [String(v)], which is also [v + '']. *)
Definition toString (v : Val) : string :=
  match v with
  | VUndefined => "undefined"
  | VNull => "null"
  | VBool true => "true"
  | VBool false => "false"
  | VNum n => NilZero.string_of_int (Z.to_int n)
  | VNaN => "NaN"
  | VStr s => s
  end.

(** Strict equality [===]. *)
Definition strictEq (a b : Val) : bool :=
  match a, b with
  | VUndefined, VUndefined => true
  | VNull, VNull => true
  | VBool x, VBool y => Bool.eqb x y
  | VNum x, VNum y => (x =? y)%Z
  | VStr x, VStr y => String.eqb x y
  | _, _ => false
  end.

(** [a || b]. *)
Definition orElse (a b : Val) : Val := if truthy a then a else b.

(** A plain object: own properties only. *)
Abbreviation Obj := (gmap string Val).

(** [o[k]] / [o.k] for a name that [Object.prototype] does not define. *)
Definition get (o : Obj) (k : string) : Val := default VUndefined (o !! k).

(** [o[k] = v] on a plain object.  Assigning a primitive to
    ["__proto__"] goes to the accessor inherited from
    [Object.prototype], which ignores it: no own property is made. *)
Definition set (o : Obj) (k : string) (v : Val) : Obj :=
  if String.eqb k "__proto__" then o else <[k := v]> o.

(** A candidate record as an import sees it: an element of the parsed
    array is an object, or some primitive value. *)
Inductive Cand : Type :=
| CObj (o : Obj)
| CPrim (v : Val).

End Js.

(* ===================================================================== *)
(** * What the two delimited-text parsers share *)
(* ===================================================================== *)

Module Csv.
Import JsString Js.

(** The inner loop shared by both parsers,
    [for (j ...) obj[headers[j]] = values[j]], run over rows of the same
    length as the header row. *)
Definition buildRecord (headers values : list string) : Obj :=
  fold_left (fun o hv => set o (fst hv) (VStr (snd hv)))
            (combine headers values) ∅.

(** [line.trim() === ''] *)
Definition isBlank (line : string) : bool := String.eqb (trim line) "".

End Csv.

(* ===================================================================== *)
(** * Exceptions *)
(* ===================================================================== *)

(** A JavaScript computation either completes or throws.  [TypeError] is
    what calling a method on [undefined], [null] or a value without that
    method raises; [DataError] is what IndexedDB raises, synchronously,
    for a value whose key is not a valid key. *)
Inductive Error : Type := TypeError | DataError.

Inductive Result (A : Type) : Type :=
| Ok (a : A)
| Throw (e : Error).

Arguments Ok {A} a.
Arguments Throw {A} e.

#[global] Instance Result_ret : MRet Result := fun A a => Ok a.

#[global] Instance Result_bind : MBind Result := fun A B k c =>
  match c with
  | Ok a => k a
  | Throw e => Throw e
  end.

(* ===================================================================== *)
(** * The object store *)
(* ===================================================================== *)

(** The object store [openDB] creates:
    [createObjectStore(STORE_NAME, { keyPath: 'id', autoIncrement: true })].
    Records are keyed in-line by their [id] property and the store owns a
    key generator.  The operations follow the W3C Indexed Database
    algorithms "extract a key from a value using a key path" and "store a
    record into an object store". *)
Module IDB.
Import Js.

(** Valid keys among the values of the model: numbers (not [NaN]) and
    strings. *)
Inductive Key : Type :=
| KNum (n : Z)
| KStr (s : string).

#[global] Instance Key_eq_dec : EqDecision Key.
Proof. solve_decision. Defined.

#[global] Program Instance Key_countable : Countable Key :=
  inj_countable'
    (fun k => match k with KNum n => inl n | KStr s => inr s end)
    (fun x => match x with inl n => KNum n | inr s => KStr s end) _.
Next Obligation. by intros []. Qed.

(** Key order: every number sorts before every string. *)
Definition keyLe (a b : Key) : bool :=
  match a, b with
  | KNum x, KNum y => (x <=? y)%Z
  | KNum _, KStr _ => true
  | KStr _, KNum _ => false
  | KStr x, KStr y => String.leb x y
  end.

Record ObjectStore : Type := mkStore {
  records : gmap Key Obj;
  keyGen : Z   (* the key generator's current number *)
}.

(** A freshly created store: no record, generator at 1. *)
Definition empty : ObjectStore := {| records := ∅; keyGen := 1 |}.

(** "Convert a value to a key". *)
Definition valueToKey (v : Val) : option Key :=
  match v with
  | VNum n => Some (KNum n)
  | VStr s => Some (KStr s)
  | _ => None
  end.

Inductive KeyPathResult : Type :=
| NoKey                 (* no own [id], or [id] is [undefined] *)
| InvalidKey            (* an [id] that is not a valid key *)
| ValidKey (k : Key).

(** "Extract a key from a value using a key path", key path ['id']. *)
Definition extractKey (o : Obj) : KeyPathResult :=
  match o !! "id" with
  | None | Some VUndefined => NoKey
  | Some v =>
      match valueToKey v with
      | Some k => ValidKey k
      | None => InvalidKey
      end
  end.

(** The largest number the key generator issues. *)
Definition maxGenerated : Z := 2 ^ 53.

Inductive Outcome : Type :=
| Stored (k : Key) (s : ObjectStore)   (* request succeeds with key [k] *)
| ConstraintError                      (* request fails *)
| InvalidKeyError.                     (* the call throws [DataError] *)

(** "Store a record into an object store".  Without a key the generator
    issues its current number and the key is injected into the stored
    value; with a key, that key is used and a numeric key at or above the
    generator's number moves the generator past it.  With [noOverwrite]
    an existing record under the key fails the request. *)
Definition storeRecord (noOverwrite : bool) (o : Obj) (s : ObjectStore)
  : Outcome :=
  match extractKey o with
  | InvalidKey => InvalidKeyError
  | NoKey =>
      if (maxGenerated <? keyGen s)%Z then ConstraintError
      else
        let k := KNum (keyGen s) in
        if noOverwrite && bool_decide (is_Some (records s !! k))
        then ConstraintError
        else Stored k {| records := <[k := <["id" := VNum (keyGen s)]> o]> (records s);
                         keyGen := keyGen s + 1 |}
  | ValidKey k =>
      let g := match k with
               | KNum n =>
                   let v := Z.min n maxGenerated in
                   if (keyGen s <=? v)%Z then v + 1 else keyGen s
               | KStr _ => keyGen s
               end%Z in
      if noOverwrite && bool_decide (is_Some (records s !! k))
      then ConstraintError
      else Stored k {| records := <[k := o]> (records s); keyGen := g |}
  end.

(** [store.add(value)] and [store.put(value)]. *)
Definition add : Obj -> ObjectStore -> Outcome := storeRecord true.
Definition put : Obj -> ObjectStore -> Outcome := storeRecord false.

(** [store.getAll()]: every record, in key order. *)
Definition getAll (s : ObjectStore) : list Obj :=
  (merge_sort (fun a b => keyLe a.1 b.1) (map_to_list (records s))).*2.

(** The value of a key, as [request.result] delivers it and as the
    stored record holds it in [id]. *)
Definition keyVal (k : Key) : Val :=
  match k with
  | KNum n => VNum n
  | KStr s => VStr s
  end.

(** [store.delete(key)]: removes the record if there is one and succeeds
    either way. *)
Definition deleteRecord (k : Key) (s : ObjectStore) : ObjectStore :=
  {| records := base.delete k (records s); keyGen := keyGen s |}.

(** [store.clear()]: removes every record; the key generator keeps its
    current number. *)
Definition clear (s : ObjectStore) : ObjectStore :=
  {| records := ∅; keyGen := keyGen s |}.

End IDB.

(* ===================================================================== *)
(** * [Array.prototype.sort] *)
(* ===================================================================== *)

(** ECMAScript (2019 on) leaves the algorithm of [sort] to the
    implementation and fixes its result for a consistent comparator: the
    elements in comparator order, elements that compare equal in their
    original order.  The embedding is the stable insertion sort (lemma
    [stable_sort_unique] below shows that this choice fixes nothing the
    standard leaves open); an exception thrown by the comparator escapes
    the sort.  With two or more elements every element takes part in a
    comparison, so [Array_sort] throws exactly when some comparison can. *)
Section ArraySort.
Context {A : Type}.

Fixpoint insertM (cmp : A -> A -> Result Z) (x : A) (l : list A)
  : Result (list A) :=
  match l with
  | [] => Ok [x]
  | y :: l' =>
      c ← cmp x y;
      if (c <=? 0)%Z then Ok (x :: l)
      else r ← insertM cmp x l'; Ok (y :: r)
  end.

Fixpoint Array_sort (cmp : A -> A -> Result Z) (l : list A)
  : Result (list A) :=
  match l with
  | [] => Ok []
  | x :: l' => r ← Array_sort cmp l'; insertM cmp x r
  end.

(** The same sort for a comparator that cannot throw. *)
Fixpoint insertBy (cmp : A -> A -> Z) (x : A) (l : list A) : list A :=
  match l with
  | [] => [x]
  | y :: l' => if (cmp x y <=? 0)%Z then x :: l else y :: insertBy cmp x l'
  end.

Fixpoint sortBy (cmp : A -> A -> Z) (l : list A) : list A :=
  match l with
  | [] => []
  | x :: l' => insertBy cmp x (sortBy cmp l')
  end.

(** [array.filter(p)] with a predicate that may throw. *)
Fixpoint filterM (p : A -> Result bool) (l : list A) : Result (list A) :=
  match l with
  | [] => Ok []
  | x :: l' =>
      b ← p x;
      r ← filterM p l';
      Ok (if (b : bool) then x :: r else r)
  end.

(** [array.forEach(f)] with a callback that may throw. *)
Fixpoint forEachM {B : Type} (f : A -> Result B) (l : list A) : Result unit :=
  match l with
  | [] => Ok tt
  | x :: l' => r ← f x; forEachM f l'
  end.

(** The results of a callback that may throw, element by element, as
    [array.join] collects the string forms of the elements. *)
Fixpoint collectM {B : Type} (f : A -> Result B) (l : list A)
  : Result (list B) :=
  match l with
  | [] => Ok []
  | x :: l' => y ← f x; r ← collectM f l'; Ok (y :: r)
  end.

(** [array.findIndex(p)]; [None] stands for [-1]. *)
Fixpoint findIndex (p : A -> bool) (l : list A) : option nat :=
  match l with
  | [] => None
  | x :: l' => if p x then Some 0%nat else S <$> findIndex p l'
  end.

End ArraySort.

(* ===================================================================== *)
(** * Application state *)
(* ===================================================================== *)

Module App.
Import JsString Js.

Inductive Direction : Type := Asc | Desc.

(** Requests handed to the object store. *)
Inductive StoreCall : Type :=
| CallAdd (o : Obj)
| CallPut (o : Obj)
| CallGetAll.

(** A file offered for download. *)
Record File : Type := mkFile {
  fileName : string;
  fileType : string;
  fileContent : string
}.

(** The globals of the script ([db], [currentPasswords], [sortColumn],
    [sortDirection]), the object store behind [db], and what the user
    has been shown: the entries the rows of the table show ([rendered]:
    the list last passed to [renderPasswords], less the rows
    [deletePassword] has removed, with the rows [updateTableRow] has
    written over), the [alert] messages, the downloads.  [storeCalls]
    records the requests made to the store, oldest first. *)
Record State : Type := mkState {
  dbOpen : bool;
  store : IDB.ObjectStore;
  currentPasswords : list Obj;
  sortColumn : string;
  sortDirection : Direction;
  rendered : list Obj;
  alerts : list string;
  storeCalls : list StoreCall;
  downloads : list File
}.

(** Faults of the storage engine that the code cannot foresee: a write
    request (or the transaction holding it) failing, a read failing. *)
Record Faults : Type := mkFaults {
  writeFails : bool;
  readFails : bool
}.

Definition noFaults : Faults := {| writeFails := false; readFails := false |}.

(** Platform functions the scripts call and the model leaves open. *)
Record Platform : Type := mkPlatform {
  JSON_stringify : list Obj -> string;   (* [JSON.stringify(array, null, 2)] *)
  JSON_stringifyValue : Val -> string;   (* [JSON.stringify(value)], value defined *)
  today : string                         (* [new Date().toISOString().split('T')[0]] *)
}.

Definition withStore (s : IDB.ObjectStore) (st : State) : State :=
  mkState (dbOpen st) s (currentPasswords st) (sortColumn st)
          (sortDirection st) (rendered st) (alerts st) (storeCalls st)
          (downloads st).

Definition withCache (l : list Obj) (st : State) : State :=
  mkState (dbOpen st) (store st) l (sortColumn st)
          (sortDirection st) (rendered st) (alerts st) (storeCalls st)
          (downloads st).

Definition withSort (col : string) (dir : Direction) (st : State) : State :=
  mkState (dbOpen st) (store st) (currentPasswords st) col dir
          (rendered st) (alerts st) (storeCalls st) (downloads st).

(** [renderPasswords(passwords)] *)
Definition renderPasswords (l : list Obj) (st : State) : State :=
  mkState (dbOpen st) (store st) (currentPasswords st) (sortColumn st)
          (sortDirection st) l (alerts st) (storeCalls st) (downloads st).

(** [alert(msg)] *)
Definition alert (msg : string) (st : State) : State :=
  mkState (dbOpen st) (store st) (currentPasswords st) (sortColumn st)
          (sortDirection st) (rendered st) (alerts st ++ [msg])
          (storeCalls st) (downloads st).

Definition logCalls (cs : list StoreCall) (st : State) : State :=
  mkState (dbOpen st) (store st) (currentPasswords st) (sortColumn st)
          (sortDirection st) (rendered st) (alerts st)
          (storeCalls st ++ cs) (downloads st).

Definition download (f : File) (st : State) : State :=
  mkState (dbOpen st) (store st) (currentPasswords st) (sortColumn st)
          (sortDirection st) (rendered st) (alerts st) (storeCalls st)
          (downloads st ++ [f]).

(** [v.toLowerCase()]: a method of strings only. *)
Definition lowerOf (v : Val) : Result string :=
  match v with
  | VStr s => Ok (toLowerCase s)
  | _ => Throw TypeError
  end.

(** [v + s] with [s] a string: string concatenation. *)
Definition concat (v : Val) (s : string) : Val := VStr (toString v ++ s).

(** The three-way result both comparators compute from the two keys, and
    its sign flipped for a descending sort. *)
Definition comparison (valA valB : string) : Z :=
  if gt valA valB then 1 else if lt valA valB then -1 else 0.

Definition directed (dir : Direction) (c : Z) : Z :=
  match dir with
  | Desc => c * -1
  | Asc => c
  end.

(** The header-click rule for the sort state: same column flips the
    direction, another column starts ascending. *)
Definition clickSort (newSortColumn : string) (st : State) : State :=
  if String.eqb newSortColumn (sortColumn st)
  then withSort (sortColumn st)
                (match sortDirection st with Asc => Desc | Desc => Asc end) st
  else withSort newSortColumn Asc st.

Inductive Format : Type := FJson | FCsv.

(** [format.toUpperCase()] *)
Definition formatUpper (f : Format) : string :=
  match f with
  | FJson => "JSON"
  | FCsv => "CSV"
  end.

(** What the parse step of an import hands on: [JSON.parse] threw, or
    the value is not an array, or it is an array of candidates. *)
Inductive Parsed : Type :=
| ParseFailed
| NotAnArray
| ParsedArray (l : list Cand).

Definition msgNoValid : string := "No valid password entries found in the file.".
Definition msgImportFailed : string := "An error occurred during the import process.".
Definition msgNoExport : string := "No passwords to export.".
Definition msgIdNotFound : string := "Error: Entry ID not found for saving.".
Definition msgNoChanges : string := "No changes were made.".
Definition msgEmptyEdit : string := "Username and Password cannot be empty.".
Definition msgPutFailed : string := "Failed to save changes to disk. Reloading data.".

Definition msgParseError (f : Format) : string :=
  "Error reading or parsing the file. Make sure it is a valid "
  ++ formatUpper f ++ " file.".

Definition msgInvalidFormat (f : Format) : string :=
  "Invalid file format. Please select a valid " ++ formatUpper f ++ " file.".

Definition msgImported (n : nat) : string :=
  NilZero.string_of_uint (Nat.to_uint n) ++ " passwords imported successfully.".

(** The synchronous part of the import transaction:
    [validPasswords.forEach(password => store.add(password))].  A record
    whose [id] is not a valid key makes [add] throw; the requests made
    before it stay queued.  Returns the queued records and whether a
    call threw. *)
Fixpoint queueAdds (valid : list Obj) : list Obj * bool :=
  match valid with
  | [] => ([], false)
  | o :: rest =>
      match IDB.extractKey o with
      | IDB.InvalidKey => ([], true)
      | _ => let '(q, t) := queueAdds rest in (o :: q, t)
      end
  end.

(** The transaction then runs its requests in order; a failing request
    aborts it and every change is undone ([None]). *)
Fixpoint runAdds (q : list Obj) (s : IDB.ObjectStore)
  : option IDB.ObjectStore :=
  match q with
  | [] => Some s
  | o :: rest =>
      match IDB.add o s with
      | IDB.Stored _ s' => runAdds rest s'
      | _ => None
      end
  end.

Definition commitAdds (f : Faults) (q : list Obj) (s : IDB.ObjectStore)
  : option IDB.ObjectStore :=
  if writeFails f then None else runAdds q s.

(** The file name and type of the two exports. *)
Definition jsonFile (env : Platform) (content : string) : File :=
  mkFile ("passwords-backup-" ++ today env ++ ".json") "application/json" content.

Definition csvFile (env : Platform) (content : string) : File :=
  mkFile ("passwords-backup-" ++ today env ++ ".csv") "text/csv" content.

Definition csvHeaders : list string := ["website"; "username"; "password"].


Definition msgAddFailed : string := "Failed to save password. Check console for details.".
Definition msgFillAll : string := "Please fill out all fields.".
Definition msgDbLoading : string :=
  "Database is still loading. Please wait a moment and try again.".
Definition msgDeleteFailed : string := "Failed to delete from disk. Reloading data.".
Definition msgCleared : string :=
  "All saved entries have been permanently deleted from this device.".
Definition msgClearFailed : string :=
  "Error: Failed to delete passwords from the database.".

(** The rows of the table after a row-level removal. *)
Definition withRows (rows : list Obj) (st : State) : State :=
  mkState (dbOpen st) (store st) (currentPasswords st) (sortColumn st)
          (sortDirection st) rows (alerts st) (storeCalls st) (downloads st).

(** [document.querySelector('.delete-btn[data-id=...]').closest('tr')]
    followed by [row.remove()]: the first row whose [data-id] attribute,
    the string form of the entry's id, is the string form of the given
    id.  [None] when no row matches. *)
Definition removeRow (id : Val) (rows : list Obj) : option (list Obj) :=
  match findIndex (fun e => String.eqb (toString (get e "id")) (toString id))
                  rows with
  | Some i => Some (delete i rows)
  | None => None
  end.

(** The application state together with the flag [isAwaitingConfirmation]
    of the clear-all dialog.  The dialog and its buttons are taken to be
    in the page. *)
Record Session : Type := mkSession {
  app : State;
  isAwaitingConfirmation : bool
}.

(** What [togglePasswordVisibility] reads and writes of the password
    cell: its text and its colour. *)
Record Span : Type := mkSpan {
  textContent : string;
  color : string
}.

Definition STAR : ascii := "*"%char.

(** ['*'.repeat(n)] *)
Fixpoint stars (n : nat) : string :=
  match n with
  | O => EmptyString
  | S n' => String STAR (stars n')
  end.

(** ['*'.repeat(entry.password.length)], the mask that
    [updateTableRow] and the [renderPasswords] of [src/script.js]
    compute: [undefined] and [null] have no properties, and a value
    without [length] repeats zero times. *)
Definition maskedPassword (entry : Obj) : Result string :=
  match get entry "password" with
  | VStr s => Ok (stars (String.length s))
  | VUndefined | VNull => Throw TypeError
  | _ => Ok ""
  end.

(** Assigning a value to [textContent]: [null] gives the empty text,
    any other value its string form. *)
Definition setText (v : Val) : string :=
  match v with
  | VNull => ""
  | _ => toString v
  end.

End App.

(* ===================================================================== *)
(** * Operations whose text is the same in both revisions *)
(* ===================================================================== *)

(** [loadPasswords], [updatePassword], the Save listener of the edit
    dialog, [exportPasswords] and the import handler read the same in
    [src/script.js] and in [src/unnamed/part_000]; they differ only
    through the [sortAndRenderPasswords] and the validation predicate of
    the revision they sit in, which are the variables of this section. *)
Module Shared.
Import JsString Js App.

Section Operations.
Variable sortAndRenderPasswords : State -> Result State.
Variable isValid : Cand -> Result bool.

(** [loadPasswords()] *)
Definition loadPasswords (f : Faults) (st : State) : Result State :=
  if negb (dbOpen st) then Ok st
  else
    let st1 := logCalls [CallGetAll] st in
    if readFails f then Ok st1
    else sortAndRenderPasswords (withCache (IDB.getAll (store st1)) st1).

(** [updateTableRow(entry)].  The password cell is looked up by its
    [data-id] attribute, the string form of the entry's id, as
    [removeRow] looks up the delete button; when the table has no such
    cell nothing happens.  Otherwise the row takes the entry's user name
    and its password cell is masked anew, and the mask reads
    [entry.password.length]. *)
Definition updateTableRow (entry : Obj) (st : State) : Result State :=
  match findIndex (fun e => String.eqb (toString (get e "id"))
                                       (toString (get entry "id")))
                  (rendered st) with
  | None => Ok st
  | Some i =>
      mask ← maskedPassword entry;
      Ok (withRows
            (alter (fun row => <["password" := get entry "password"]>
                                 (<["username" := get entry "username"]> row))
                   i (rendered st))
            st)
  end.

(** [updatePassword(entry)]: the cache slot is overwritten and the row
    updated only when [findIndex] finds the id; [store.put(entry)] is
    issued either way, unless the row update has thrown.  A failing
    request alerts and reloads. *)
Definition updatePassword (entry : Obj) (f : Faults) (st : State)
  : Result State :=
  if negb (dbOpen st) then Ok st
  else
    st1 ← match findIndex (fun p => strictEq (get p "id") (get entry "id"))
                          (currentPasswords st) with
          | Some index =>
              updateTableRow entry
                (withCache (<[index := entry]> (currentPasswords st)) st)
          | None => Ok st
          end;
    match IDB.put entry (store st1) with
    | IDB.InvalidKeyError => Throw DataError
    | outcome =>
        let st2 := logCalls [CallPut entry] st1 in
        match (if writeFails f then IDB.ConstraintError else outcome) with
        | IDB.Stored _ s => Ok (withStore s st2)
        | _ => loadPasswords f (alert msgPutFailed st2)
        end
    end.

(** The click listener of the edit dialog's Save button.  [id] is the
    value of [parseInt(editEntryIdInput.value)], the two strings are the
    contents of the username and password inputs. *)
Definition editSave (id : Val) (usernameInput passwordInput : string)
  (f : Faults) (st : State) : Result State :=
  match List.find (fun p => strictEq (get p "id") id) (currentPasswords st) with
  | None => Ok (alert msgIdNotFound st)
  | Some originalEntry =>
      let newUsername := trim usernameInput in
      let newPassword := passwordInput in
      if strictEq (VStr newUsername) (get originalEntry "username")
         && strictEq (VStr newPassword) (get originalEntry "password")
      then Ok (alert msgNoChanges st)
      else if truthy (VStr newUsername) && truthy (VStr newPassword)
      then
        let updatedEntry :=
          <["password" := VStr newPassword]>
            (<["username" := VStr newUsername]> originalEntry) in
        updatePassword updatedEntry f st
      else Ok (alert msgEmptyEdit st)
  end.

(** [exportPasswords()] *)
Definition exportPasswords (env : Platform) (st : State) : State :=
  if (length (currentPasswords st) =? 0)%nat then alert msgNoExport st
  else download (jsonFile env (JSON_stringify env (currentPasswords st))) st.

(** The elements of the parsed array that are objects. *)
Definition objects (l : list Cand) : list Obj :=
  omap (fun c => match c with CObj o => Some o | CPrim _ => None end) l.

(** The [reader.onload] handler of the import, from the parsed value on.
    Everything up to and including the [store.add] calls runs inside
    [try]/[catch]; the transaction's [oncomplete] and [onerror] handlers
    are attached after the calls, so a call that throws leaves the
    transaction without them. *)
Definition importParsed (fmt : Format) (parsed : Parsed) (f : Faults)
  (st : State) : Result State :=
  match parsed with
  | ParseFailed => Ok (alert (msgParseError fmt) st)
  | NotAnArray => Ok (alert (msgInvalidFormat fmt) st)
  | ParsedArray importedPasswords =>
      match filterM isValid importedPasswords with
      | Throw _ => Ok (alert (msgParseError fmt) st)
      | Ok valid =>
          let validPasswords := objects valid in
          if (0 <? length validPasswords)%nat then
            if negb (dbOpen st) then Ok (alert (msgParseError fmt) st)
            else
              let '(queued, threw) := queueAdds validPasswords in
              let st1 := logCalls (map CallAdd queued) st in
              match commitAdds f queued (store st1), threw with
              | Some s, true => Ok (alert (msgParseError fmt) (withStore s st1))
              | None, true => Ok (alert (msgParseError fmt) st1)
              | Some s, false =>
                  loadPasswords f
                    (alert (msgImported (length validPasswords)) (withStore s st1))
              | None, false => Ok (alert msgImportFailed st1)
              end
          else Ok (alert msgNoValid st)
      end
  end.


(** [executeClearAll()]: on success the cache is emptied, the empty list
    rendered, and the user told; on failure only an alert.  The request
    is not entered in [storeCalls], which names add, put and getAll
    requests. *)
Definition executeClearAll (f : Faults) (st : State) : State :=
  if negb (dbOpen st) then st
  else if writeFails f then alert msgClearFailed st
  else alert msgCleared
         (renderPasswords [] (withCache [] (withStore (IDB.clear (store st)) st))).

(** [clearAllPasswords()], the listener of the Clear button: shows the
    dialog and raises the flag. *)
Definition clearAllPasswords (ss : Session) : Session :=
  if negb (dbOpen (app ss)) then ss
  else mkSession (app ss) true.

(** [hideClearModal()], the listener of the Cancel button, of the close
    button and of a click on the backdrop. *)
Definition hideClearModal (ss : Session) : Session :=
  mkSession (app ss) false.

(** The click listener of the dialog's Confirm button. *)
Definition modalConfirm (f : Faults) (ss : Session) : Session :=
  if isAwaitingConfirmation ss
  then hideClearModal (mkSession (executeClearAll f (app ss)) (isAwaitingConfirmation ss))
  else ss.

End Operations.
End Shared.

(* ===================================================================== *)
(** * [src/script.js] *)
(* ===================================================================== *)

Module ScriptJs.
Import JsString Js Csv App.

(** ** [parseCSV], lines 291-308: split on commas, trim every cell *)

(** [lines[i].split(',').map(v => v.trim())] *)
Definition cells (line : string) : list string := map trim (split COMMA line).

(** The body of the [for] loop over the data lines: a line whose cell
    count differs from the header count contributes nothing. *)
Definition parseLine (headers : list string) (line : string) : option Obj :=
  let values := cells line in
  if (length values =? length headers)%nat
  then Some (buildRecord headers values) else None.

Definition parseCSV (csv : string) : list Obj :=
  let lines := split LF csv in
  let headers := cells (hd "" lines) in
  omap (parseLine headers) (tl lines).

(** ** [sortAndRenderPasswords], lines 502-517 *)

(** [a[sortColumn].toLowerCase()] *)
Definition sortKey (col : string) (a : Obj) : Result string :=
  lowerOf (get a col).

Definition compareEntries (col : string) (dir : Direction) (a b : Obj)
  : Result Z :=
  valA ← sortKey col a;
  valB ← sortKey col b;
  Ok (directed dir (comparison valA valB)).

(** [renderPasswords(passwords)], lines 391-464.  Each row is built
    from ['*'.repeat(entry.password.length)], so an entry without a
    password makes the loop over the entries throw. *)
Definition renderPasswords (passwords : list Obj) (st : State) : Result State :=
  done ← forEachM maskedPassword passwords;
  Ok (App.renderPasswords passwords st).

Definition sortAndRenderPasswords (st : State) : Result State :=
  sorted ← Array_sort (compareEntries (sortColumn st) (sortDirection st))
                      (currentPasswords st);
  renderPasswords sorted (withCache sorted st).

(** The click listener of the table, lines 555-569, for a header cell
    that carries a [data-sort] attribute. *)
Definition headerClick (newSortColumn : string) (st : State) : Result State :=
  sortAndRenderPasswords (clickSort newSortColumn st).

(** ** [filterPasswords], lines 470-484 *)

Definition matches (term : string) (entry : Obj) : Result bool :=
  w ← lowerOf (get entry "website");
  if includes w term then Ok true
  else u ← lowerOf (get entry "username"); Ok (includes u term).

Definition filterPasswords (searchTerm : string) (st : State) : Result State :=
  let term := trim (toLowerCase searchTerm) in
  if String.eqb term "" then sortAndRenderPasswords st
  else
    filteredList ← filterM (matches term) (currentPasswords st);
    renderPasswords filteredList st.

(** ** Import, lines 232-286 *)

(** [p => p.website && p.username && p.password]; reading a property
    of [null] or [undefined] throws. *)
Definition isValid (c : Cand) : Result bool :=
  match c with
  | CObj p =>
      Ok (truthy (get p "website") && truthy (get p "username")
          && truthy (get p "password"))
  | CPrim VUndefined | CPrim VNull => Throw TypeError
  | CPrim _ => Ok false
  end.

Definition loadPasswords := Shared.loadPasswords sortAndRenderPasswords.
Definition updatePassword := Shared.updatePassword sortAndRenderPasswords.
Definition editSave := Shared.editSave sortAndRenderPasswords.
Definition exportPasswords := Shared.exportPasswords.
Definition importParsed := Shared.importParsed sortAndRenderPasswords isValid.

(** [importPasswords(event, 'csv')] once the file has been read. *)
Definition importCSV (text : string) : Faults -> State -> Result State :=
  importParsed FCsv (ParsedArray (map CObj (parseCSV text))).

(** ** [exportToCSV], lines 313-334 *)

(** One cell: [JSON.stringify(row[fieldName])], which is [undefined]
    for a missing field and then joins as the empty string. *)
Definition csvCell (env : Platform) (v : Val) : string :=
  match v with
  | VUndefined => ""
  | _ => JSON_stringifyValue env v
  end.

Definition exportToCSV (env : Platform) (st : State) : State :=
  if (length (currentPasswords st) =? 0)%nat then alert msgNoExport st
  else
    let csv :=
      join CRLF
        (join "," csvHeaders ::
         map (fun row =>
                join "," (map (fun fieldName => csvCell env (get row fieldName))
                              csvHeaders))
             (currentPasswords st)) in
    download (csvFile env csv) st.


(** ** [addPassword], lines 82-105, and the Save listener, lines 523-539 *)

(** On success the id the store reports is written into the entry, the
    entry is pushed onto the cache and the cache sorted and rendered; a
    failing request is logged to the console only. *)
Definition addPassword (entry : Obj) (f : Faults) (st : State) : Result State :=
  if negb (dbOpen st) then Ok st
  else
    match IDB.add entry (store st) with
    | IDB.InvalidKeyError => Throw DataError
    | outcome =>
        let st1 := logCalls [CallAdd entry] st in
        match (if writeFails f then IDB.ConstraintError else outcome) with
        | IDB.Stored k s =>
            sortAndRenderPasswords
              (withCache (currentPasswords st1 ++ [<["id" := IDB.keyVal k]> entry])
                         (withStore s st1))
        | _ => Ok st1
        end
    end.

(** The three strings are the contents of the form's inputs; [now]
    stands for the [Date] the listener creates. *)
Definition saveClick (websiteInput usernameInput passwordInput : string)
  (now : Val) (f : Faults) (st : State) : Result State :=
  if negb (dbOpen st) then Ok (alert msgDbLoading st)
  else
    let website := trim websiteInput in
    let username := trim usernameInput in
    let password := passwordInput in
    if truthy (VStr website) && truthy (VStr username) && truthy (VStr password)
    then
      addPassword {[ "website" := VStr website; "username" := VStr username;
                     "password" := VStr password; "createdAt" := now ]} f st
    else Ok (alert msgFillAll st).

(** ** [deletePassword], lines 110-134 *)

(** The cache entry is spliced out and its row removed before the
    request is made; looking up the row of an entry that has none
    throws.  A failing request alerts and reloads.  The delete request
    is not entered in [storeCalls]. *)
Definition deletePassword (idToDelete : Val) (f : Faults) (st : State)
  : Result State :=
  if negb (dbOpen st) then Ok st
  else
    st1 ← match findIndex (fun p => strictEq (get p "id") idToDelete)
                          (currentPasswords st) with
          | Some index =>
              match removeRow idToDelete (rendered st) with
              | Some rows =>
                  Ok (withRows rows
                        (withCache (delete index (currentPasswords st)) st))
              | None => Throw TypeError
              end
          | None => Ok st
          end;
    match IDB.valueToKey idToDelete with
    | None => Throw DataError
    | Some k =>
        if writeFails f then loadPasswords f (alert msgDeleteFailed st1)
        else Ok (withStore (IDB.deleteRecord k (store st1)) st1)
    end.

(** ** [togglePasswordVisibility], lines 489-497 *)

(** ['*'.repeat(realPassword.length)]: a value without [length] repeats
    zero times, [null] and [undefined] have no properties at all. *)
Definition maskOf (realPassword : Val) : Result string :=
  match realPassword with
  | VStr s => Ok (stars (String.length s))
  | VUndefined | VNull => Throw TypeError
  | _ => Ok ""
  end.

Definition togglePasswordVisibility (span : Span) (realPassword : Val)
  : Result Span :=
  if includesChar (textContent span) STAR
  then Ok (mkSpan (setText realPassword) "red")
  else m ← maskOf realPassword; Ok (mkSpan m "#007bff").

End ScriptJs.

(* ===================================================================== *)
(** * [src/unnamed/part_000], lines 435-1294 *)
(* ===================================================================== *)

Module Part000.
Import JsString Js Csv App.

(** ** [parseCSV], lines 752-818: quoted fields *)

(** [parseRow]: the character loop, with the fields pushed so far, the
    current field and the in-quotes flag.  Inside quotes a quote followed
    by a quote appends one quote and skips both characters. *)
Fixpoint parseRowFrom (row : string) (fields : list string) (cur : string)
  (inQuotes : bool) : list string :=
  match row with
  | EmptyString => fields ++ [cur]
  | String ch rest =>
      if inQuotes then
        if Ascii.eqb ch DQUOTE then
          match rest with
          | String ch' rest' =>
              if Ascii.eqb ch' DQUOTE
              then parseRowFrom rest' fields (cur ++ str1 DQUOTE) true
              else parseRowFrom rest fields cur false
          | EmptyString => parseRowFrom rest fields cur false
          end
        else parseRowFrom rest fields (cur ++ str1 ch) true
      else
        if Ascii.eqb ch DQUOTE then parseRowFrom rest fields cur true
        else if Ascii.eqb ch COMMA then parseRowFrom rest (fields ++ [cur]) "" false
        else parseRowFrom rest fields (cur ++ str1 ch) false
  end.

Definition parseRow (row : string) : list string := parseRowFrom row [] "" false.

(** The data loop: blank lines are skipped, a row whose field count
    differs from the header count is skipped with a console warning. *)
Definition parseLine (headers : list string) (line : string) : option Obj :=
  if isBlank line then None
  else
    let values := parseRow line in
    if (length values =? length headers)%nat
    then Some (buildRecord headers values) else None.

(** [while (... lines[headerLineIndex].trim() === '') headerLineIndex++] *)
Fixpoint skipBlank (lines : list string) : list string :=
  match lines with
  | [] => []
  | l :: rest => if isBlank l then skipBlank rest else lines
  end.

Definition parseCSV (csv : string) : list Obj :=
  if String.eqb csv "" then []
  else
    let normalized := replaceCR (replaceCRLF csv) in
    let lines := split LF normalized in
    match skipBlank lines with
    | [] => []
    | headerLine :: rest =>
        let headers := map trim (parseRow headerLine) in
        omap (parseLine headers) rest
    end.

(** The input of property P6 of the specification: a header line, a line
    feed, and one data line with a quoted comma and a doubled quote. *)
Definition p6_input : string :=
  "website,username,password" ++ str1 LF ++
  "Example.com," ++ str1 DQUOTE ++ "user,one" ++ str1 DQUOTE ++ "," ++
  str1 DQUOTE ++ "pa" ++ str1 DQUOTE ++ str1 DQUOTE ++ "ss" ++ str1 DQUOTE.


(** ** [sortAndRenderPasswords], lines 1036-1051 *)

(** [((a[sortColumn] || '') + '').toLowerCase()] *)
Definition sortKey (col : string) (a : Obj) : Result string :=
  lowerOf (concat (orElse (get a col) (VStr "")) "").

Definition compareEntries (col : string) (dir : Direction) (a b : Obj)
  : Result Z :=
  valA ← sortKey col a;
  valB ← sortKey col b;
  Ok (directed dir (comparison valA valB)).

Definition sortAndRenderPasswords (st : State) : Result State :=
  sorted ← Array_sort (compareEntries (sortColumn st) (sortDirection st))
                      (currentPasswords st);
  Ok (renderPasswords sorted (withCache sorted st)).

(** The click listener of the table, lines 1105-1120, for a header cell;
    an empty [data-sort] attribute returns at once. *)
Definition headerClick (newSortColumn : string) (st : State) : Result State :=
  if String.eqb newSortColumn "" then Ok st
  else sortAndRenderPasswords (clickSort newSortColumn st).

(** ** [filterPasswords], lines 1003-1017 *)

(** [(entry.website || '').toLowerCase().includes(term) ||
     (entry.username || '').toLowerCase().includes(term)] *)
Definition matches (term : string) (entry : Obj) : Result bool :=
  w ← lowerOf (orElse (get entry "website") (VStr ""));
  if includes w term then Ok true
  else
    u ← lowerOf (orElse (get entry "username") (VStr ""));
    Ok (includes u term).

Definition filterPasswords (searchTerm : string) (st : State) : Result State :=
  let term := trim (toLowerCase searchTerm) in
  if String.eqb term "" then sortAndRenderPasswords st
  else
    filteredList ← filterM (matches term) (currentPasswords st);
    Ok (renderPasswords filteredList st).

(** The [keyup] listener of the search bar, lines 1126-1128.  An
    exception escaping [filterPasswords] ends the listener; it can only
    come from the predicate of [filter], before anything is rendered, so
    the state is the one the listener started from. *)
Definition searchKeyup (value : string) (st : State) : State :=
  match filterPasswords value st with
  | Ok st' => st'
  | Throw _ => st
  end.

(** ** Import, lines 700-746 *)

(** [p => p && p.website && p.username && p.password]; a primitive has
    none of the three properties. *)
Definition isValid (c : Cand) : Result bool :=
  match c with
  | CObj p =>
      Ok (truthy (get p "website") && truthy (get p "username")
          && truthy (get p "password"))
  | CPrim _ => Ok false
  end.

Definition loadPasswords := Shared.loadPasswords sortAndRenderPasswords.
Definition updatePassword := Shared.updatePassword sortAndRenderPasswords.
Definition editSave := Shared.editSave sortAndRenderPasswords.
Definition exportPasswords := Shared.exportPasswords.
Definition importParsed := Shared.importParsed sortAndRenderPasswords isValid.

(** [importPasswordsFromEvent(file, 'csv')] once the file has been read. *)
Definition importCSV (text : string) : Faults -> State -> Result State :=
  importParsed FCsv (ParsedArray (map CObj (parseCSV text))).

(** ** [csvEscape] and [exportToCSV], lines 823-866 *)

Definition needsQuoting (s : string) : bool :=
  includesChar s DQUOTE || includesChar s COMMA || includesChar s LF.

Definition csvEscape (value : Val) : string :=
  match value with
  | VNull | VUndefined => ""
  | _ =>
      let s := toString value in
      if needsQuoting s
      then str1 DQUOTE ++ doubleQuotes s ++ str1 DQUOTE
      else s
  end.

(** [headers.map(fieldName => csvEscape(row[fieldName])).join(',')] *)
Definition csvRow (row : Obj) : string :=
  join "," (map (fun fieldName => csvEscape (get row fieldName)) csvHeaders).

(** The text [exportToCSV] builds for a list of entries. *)
Definition csvText (entries : list Obj) : string :=
  join CRLF (join "," csvHeaders :: map csvRow entries).

Definition exportToCSV (env : Platform) (st : State) : State :=
  if (length (currentPasswords st) =? 0)%nat then alert msgNoExport st
  else download (csvFile env (csvText (currentPasswords st))) st.


(** ** [addPassword], lines 509-536, and the Save listener, lines 1062-1078 *)

(** As in [src/script.js], with an alert when the request fails. *)
Definition addPassword (entry : Obj) (f : Faults) (st : State) : Result State :=
  if negb (dbOpen st) then Ok st
  else
    match IDB.add entry (store st) with
    | IDB.InvalidKeyError => Throw DataError
    | outcome =>
        let st1 := logCalls [CallAdd entry] st in
        match (if writeFails f then IDB.ConstraintError else outcome) with
        | IDB.Stored k s =>
            sortAndRenderPasswords
              (withCache (currentPasswords st1 ++ [<["id" := IDB.keyVal k]> entry])
                         (withStore s st1))
        | _ => Ok (alert msgAddFailed st1)
        end
    end.

Definition saveClick (websiteInput usernameInput passwordInput : string)
  (now : Val) (f : Faults) (st : State) : Result State :=
  if negb (dbOpen st) then Ok (alert msgDbLoading st)
  else
    let website := trim websiteInput in
    let username := trim usernameInput in
    let password := passwordInput in
    if truthy (VStr website) && truthy (VStr username) && truthy (VStr password)
    then
      addPassword {[ "website" := VStr website; "username" := VStr username;
                     "password" := VStr password; "createdAt" := now ]} f st
    else Ok (alert msgFillAll st).

(** ** [deletePassword], lines 541-565 *)

(** As in [src/script.js], except that a missing row is passed over. *)
Definition deletePassword (idToDelete : Val) (f : Faults) (st : State)
  : Result State :=
  if negb (dbOpen st) then Ok st
  else
    let st1 :=
      match findIndex (fun p => strictEq (get p "id") idToDelete)
                      (currentPasswords st) with
      | Some index =>
          let st' := withCache (delete index (currentPasswords st)) st in
          match removeRow idToDelete (rendered st) with
          | Some rows => withRows rows st'
          | None => st'
          end
      | None => st
      end in
    match IDB.valueToKey idToDelete with
    | None => Throw DataError
    | Some k =>
        if writeFails f then loadPasswords f (alert msgDeleteFailed st1)
        else Ok (withStore (IDB.deleteRecord k (store st1)) st1)
    end.

(** ** [togglePasswordVisibility], lines 1022-1031 *)

(** ['*'.repeat((realPassword || '').length)] *)
Definition maskOf (realPassword : Val) : string :=
  match orElse realPassword (VStr "") with
  | VStr s => stars (String.length s)
  | _ => ""
  end.

Definition togglePasswordVisibility (span : Span) (realPassword : Val) : Span :=
  if includesChar (textContent span) STAR
  then mkSpan (setText realPassword) "red"
  else mkSpan (maskOf realPassword) "#007bff".

End Part000.

(* ===================================================================== *)
(** * Fields that are objects *)
(* ===================================================================== *)

(** [JSON.parse] builds, and the structured clone of the store keeps,
    values that are not primitive: arrays and plain objects.  The test
    of the import, [p.website && p.username && p.password], lets them
    through, an object being truthy, so a field of a cache entry can be
    one.  The modules above follow entries whose fields are primitive;
    this module follows the comparator of the later revision
    ([src/unnamed/part_000], lines 1038-1048) over fields of either
    kind.

    Such a value has own data properties only, none of them a function,
    and its prototype is [Object.prototype] or [Array.prototype]. *)
Module Structured.
Import JsString Js App.

#[local] Set Warnings "-register-all".

Inductive Value : Type :=
| Prim (v : Val)
| Arr (elements : list Value)
| Object (properties : list (string * Value)).

Abbreviation Entry := (gmap string Value).

(** [ToBoolean]: every object is truthy. *)
Definition truthy (x : Value) : bool :=
  match x with
  | Prim v => Js.truthy v
  | Arr _ | Object _ => true
  end.

(** The object has an own property of the given name. *)
Definition hasOwn (name : string) (properties : list (string * Value)) : bool :=
  existsb (fun p => String.eqb (fst p) name) properties.

(** [ToString], which [x + ''] comes to.  For an object [ToPrimitive]
    asks [valueOf] and [toString], using a method only if it is a
    function and taking its result only if that is not an object.  The
    inherited [valueOf] returns the object itself and an own [valueOf]
    is no function, so the outcome is that of [toString]: an own
    property of that name is no function, which leaves no method to use
    and throws; inherited, it gives [[object Object]] for a plain object
    and for an array the elements joined by commas, an element that is
    [undefined] or [null] as the empty string ([elementText]). *)
Definition elementText (toString : Value -> Result string) (e : Value)
  : Result string :=
  match e with
  | Prim VUndefined | Prim VNull => Ok ""
  | _ => toString e
  end.

Fixpoint toString (x : Value) : Result string :=
  match x with
  | Prim v => Ok (Js.toString v)
  | Object properties =>
      if hasOwn "toString" properties then Throw TypeError
      else Ok "[object Object]"
  | Arr elements =>
      parts ← collectM (elementText toString) elements;
      Ok (join "," parts)
  end.

(** [o[k]] *)
Definition get (o : Entry) (k : string) : Value :=
  default (Prim VUndefined) (o !! k).

(** [a || b] *)
Definition orElse (a b : Value) : Value := if truthy a then a else b.

(** [x + s] with [s] a string *)
Definition concat (x : Value) (s : string) : Result string :=
  t ← toString x; Ok (t ++ s)%string.

(** [((a[sortColumn] || '') + '').toLowerCase()] *)
Definition sortKey (col : string) (a : Entry) : Result string :=
  s ← concat (orElse (get a col) (Prim (VStr ""))) "";
  Ok (toLowerCase s).

Definition compareEntries (col : string) (dir : Direction) (a b : Entry)
  : Result Z :=
  valA ← sortKey col a;
  valB ← sortKey col b;
  Ok (directed dir (comparison valA valB)).




End Structured.

(* ===================================================================== *)
(** * Vocabulary of the properties *)
(* ===================================================================== *)

Module Spec.
Import JsString Js App.

(** The sort key of an entry as the later revision computes it: a falsy
    field counts as the empty string, any other value is turned into a
    string, and the result is lower-cased. *)
Definition keyOf (col : string) (a : Obj) : string :=
  if truthy (get a col) then toLowerCase (toString (get a col)) else "".

(** The comparator as a function of the two keys. *)
Definition cmpKey {A : Type} (key : A -> string) (dir : Direction) (a b : A)
  : Z :=
  directed dir (comparison (key a) (key b)).

(** [a] may stand before [b]. *)
Definition precedes {A : Type} (key : A -> string) (dir : Direction)
  (a b : A) : Prop :=
  (cmpKey key dir a b <= 0)%Z.

(** [a] must stand before [b]. *)
Definition strictlyPrecedes {A : Type} (key : A -> string) (dir : Direction)
  (a b : A) : Prop :=
  (cmpKey key dir a b < 0)%Z.

Definition flipDir (dir : Direction) : Direction :=
  match dir with
  | Asc => Desc
  | Desc => Asc
  end.

(** The cache is in the order of the current sort column and direction. *)
Definition inSortOrder (st : State) : Prop :=
  Sorted (precedes (keyOf (sortColumn st)) (sortDirection st))
         (currentPasswords st).

(** No entry of the list has the given id. *)
Definition absentFrom (id : Val) (l : list Obj) : Prop :=
  Forall (fun p => strictEq (get p "id") id = false) l.

(** Every entry of the list holds a string in the given column. *)
Definition textColumn (col : string) (l : list Obj) : Prop :=
  Forall (fun e => exists s, get e col = VStr s) l.

(** The entries with pairwise different sort keys. *)
Definition distinctKeys (col : string) (l : list Obj) : Prop :=
  NoDup (map (keyOf col) l).

(** A candidate record that fails validation: one of the three fields is
    falsy, which is the case when it is missing and when it is empty. *)
Definition failsValidation (c : Cand) : Prop :=
  match c with
  | CObj o => exists k, k ∈ csvHeaders /\ truthy (get o k) = false
  | CPrim _ => False
  end.

(** The text of a field as [csvEscape] sees it. *)
Definition fieldText (v : Val) : string :=
  match v with
  | VNull | VUndefined => ""
  | _ => toString v
  end.

(** A field wrapped in quotes, its own quotes doubled. *)
Definition quoted (s : string) : string :=
  str1 DQUOTE ++ doubleQuotes s ++ str1 DQUOTE.

(** A field contains a quote, a comma or a line feed. *)
Definition hasSpecial (s : string) : Prop :=
  exists c, (c = DQUOTE \/ c = COMMA \/ c = LF) /\ includesChar s c = true.

(** How a record submitted with [add] sits in the store once its
    transaction has committed, [before] being the store at the start:
    a record that carries an id is stored under that id, which was free;
    a record without one is stored, the key injected as its id, under a
    number the key generator issued meanwhile, which was free too. *)
Definition storedAs (before after : IDB.ObjectStore) (o : Obj) : Prop :=
  match IDB.extractKey o with
  | IDB.ValidKey k =>
      IDB.records before !! k = None /\ IDB.records after !! k = Some o
  | IDB.NoKey =>
      exists n : Z,
        (IDB.keyGen before <= n < IDB.keyGen after)%Z
        /\ IDB.records before !! IDB.KNum n = None
        /\ IDB.records after !! IDB.KNum n = Some (<["id" := VNum n]> o)
  | IDB.InvalidKey => False
  end.

(** Sample data. *)
Definition mkEntry (id : Z) (website username password : string) : Obj :=
  {[ "id" := VNum id; "website" := VStr website;
     "username" := VStr username; "password" := VStr password ]}.

Definition env0 : Platform :=
  mkPlatform (fun _ => "[]") (fun v => toString v) "2024-01-01".

(** The state once the database has been opened, before anything is
    loaded. *)
Definition st0 : State :=
  mkState true IDB.empty [] "website" Asc [] [] [] [].

Definition storeOf (l : list Obj) (next : Z) : IDB.ObjectStore :=
  IDB.mkStore
    (list_to_map
       (omap (fun o => match IDB.extractKey o with
                       | IDB.ValidKey k => Some (k, o)
                       | _ => None
                       end) l))
    next.





(** Two entries sorted by user name. *)
Definition byUser : list Obj :=
  [mkEntry 1 "a.com" "alice" "p1"; mkEntry 2 "b.com" "bob" "p2"].

Definition stByUser : State :=
  mkState true (storeOf byUser 3) byUser "username" Asc byUser [] [] [].

(** A delimited text whose rows carry an [id] column. *)
Definition csvWithId : string :=
  "id,website,username,password" ++ str1 LF ++ "42,a.com,bob,pw".

(** The record that text parses to. *)
Definition recWithId : Obj :=
  {[ "id" := VStr "42"; "website" := VStr "a.com";
     "username" := VStr "bob"; "password" := VStr "pw" ]}.

(** A delimited text with blanks around the user name and the password. *)
Definition csvPadded : string :=
  "website,username,password" ++ str1 LF ++ "x.com,  bob , pw ".


(** ** Vocabulary for the cache/store discipline *)

(** Every record sits under the key its own [id] names. *)
Definition keyed (s : IDB.ObjectStore) : Prop :=
  forall k o, IDB.records s !! k = Some o -> o !! "id" = Some (IDB.keyVal k).

(** The cache holds exactly the records of the store, in some order. *)
Definition mirrors (st : State) : Prop :=
  currentPasswords st ≡ₚ (map_to_list (IDB.records (store st))).*2.

Definition consistent (st : State) : Prop :=
  keyed (store st) /\ mirrors st.

(** The key generator can still issue its current number. *)
Definition canGenerate (s : IDB.ObjectStore) : Prop :=
  (IDB.keyGen s <= IDB.maxGenerated)%Z
  /\ IDB.records s !! IDB.KNum (IDB.keyGen s) = None.

(** Every entry of the list has a text id. *)
Definition hasTextId (e : Obj) : Prop := exists s, get e "id" = VStr s.

(** ** Vocabulary for the delimited text *)

(** A record with the three exported fields. *)
Definition record3 (website username password : string) : Obj :=
  {[ "website" := VStr website; "username" := VStr username;
     "password" := VStr password ]}.

(** What the delimited-text export keeps of an entry. *)
Definition exported (e : Obj) : Obj :=
  record3 (fieldText (get e "website")) (fieldText (get e "username"))
          (fieldText (get e "password")).

(** A text without carriage return and line feed. *)
Definition noLineBreak (s : string) : Prop :=
  includesChar s CR = false /\ includesChar s LF = false.

Definition lineFree (e : Obj) : Prop :=
  noLineBreak (fieldText (get e "website"))
  /\ noLineBreak (fieldText (get e "username"))
  /\ noLineBreak (fieldText (get e "password")).

(** The two replacements [parseCSV] starts with. *)
Definition normalize (csv : string) : string := replaceCR (replaceCRLF csv).

(** ** Vocabulary for the filter *)

(** A field the filter of the later revision can lower-case: a string,
    or a falsy value. *)
Definition searchableField (v : Val) : Prop :=
  (exists s, v = VStr s) \/ truthy v = false.

Definition searchable (e : Obj) : Prop :=
  searchableField (get e "website") /\ searchableField (get e "username").

(** The entry's website or user name contains the term, case aside. *)
Definition matchesTerm (term : string) (e : Obj) : bool :=
  includes (keyOf "website" e) term || includes (keyOf "username" e) term.

(** More sample data. *)
Definition maskedSpan (pw : string) : Span :=
  mkSpan (stars (String.length pw)) "#007bff".

Definition writeFault : Faults := {| writeFails := true; readFails := false |}.

(** An entry that is not yet stored. *)
Definition carol : Obj :=
  {[ "website" := VStr "c.com"; "username" := VStr "carol";
     "password" := VStr "p3" ]}.

(** The cache after the import of [csvWithId] into the empty store. *)
Definition stTextId : State :=
  mkState true (storeOf [recWithId] 1) [recWithId] "website" Asc [recWithId]
          [] [] [].

(** An entry whose website is a number, as a structured-object import
    lets it through. *)
Definition numericSite : Obj :=
  {[ "id" := VNum 1; "website" := VNum 5; "username" := VStr "u";
     "password" := VStr "p" ]}.

Definition stNumericSite : State :=
  mkState true (storeOf [numericSite] 2) [numericSite] "website" Asc
          [numericSite] [] [] [].

(** A record whose id is a boolean. *)
Definition badIdEntry : Obj :=
  {[ "id" := VBool true; "website" := VStr "d.com"; "username" := VStr "dave";
     "password" := VStr "p4" ]}.

(** An entry with a comma in the website and a quote in the password. *)
Definition trickyEntry : Obj :=
  mkEntry 3 "x,y.com" "eve" ("pa" ++ str1 DQUOTE ++ "ss").

(** What may follow the closing quote of a quoted field: the end of the
    row or any character but a quote. *)
Definition notQuoteHead (rest : string) : Prop :=
  match rest with
  | EmptyString => True
  | String c _ => Ascii.eqb c DQUOTE = false
  end.

(** ** Vocabulary for the table rows *)

(** The entry has a password a length can be read from: the property is
    there and is not [null]. *)
Definition hasPassword (e : Obj) : Prop :=
  get e "password" <> VUndefined /\ get e "password" <> VNull.

(** The table shows a row for the id. *)
Definition rowShown (id : Val) (st : State) : Prop :=
  Exists (fun row => toString (get row "id") = toString id) (rendered st).

(** An entry that has lost its password, and an entry whose website is
    the object a structured-object file holds as
    [{ "toString": null }]. *)
Definition noPassword : Obj :=
  {[ "id" := VNum 1; "website" := VStr "a.com"; "username" := VStr "alice" ]}.


End Spec.

(* ===================================================================== *)
(** * Facts about strings *)
(* ===================================================================== *)

Section StringFacts.
Import JsString.

Lemma append_empty_r (s : string) : (s ++ "")%string = s.
Proof.
  induction s as [|c s IH]; [reflexivity|].
  change (String c (s ++ "")%string = String c s). by rewrite IH.
Qed.





(** [trim] leaves a trimmed string alone. *)
Lemma trimStart_id (s : string) : noLeadingWs s -> trimStart s = s.
Proof. destruct s as [|c s]; simpl; [done|]. by intros ->. Qed.

Lemma trimEnd_id (s : string) : noTrailingWs s -> trimEnd s = s.
Proof.
  unfold noTrailingWs. induction s as [|c s IH]; simpl; [done|].
  destruct s as [|d r].
  - simpl. by intros ->.
  - intros H. rewrite (IH H). reflexivity.
Qed.

Lemma trim_id (s : string) : trimmed s -> trim s = s.
Proof.
  intros [H1 H2]. unfold trim. rewrite (trimStart_id _ H1). by apply trimEnd_id.
Qed.

(** The order of the relational operators. *)
Lemma compare_refl (s : string) : String.compare s s = Eq.
Proof.
  induction s as [|c s IH]; simpl; [reflexivity|].
  unfold Ascii.compare. by rewrite N.compare_refl.
Qed.

Lemma compare_lt_trans (a b c : string) :
  String.compare a b = Lt -> String.compare b c = Lt -> String.compare a c = Lt.
Proof.
  revert b c. induction a as [|x a IH]; intros [|y b] [|z c]; simpl; try done.
  unfold Ascii.compare.
  destruct (N.compare_spec (N_of_ascii x) (N_of_ascii y)) as [E1|L1|G1];
    destruct (N.compare_spec (N_of_ascii y) (N_of_ascii z)) as [E2|L2|G2];
    try done; intros H1 H2.
  - rewrite E1, E2, N.compare_refl. by eapply IH.
  - rewrite E1. by apply N.compare_lt_iff in L2 as ->.
  - rewrite <- E2. by apply N.compare_lt_iff in L1 as ->.
  - assert (N_of_ascii x < N_of_ascii z)%N as L by lia.
    by apply N.compare_lt_iff in L as ->.
Qed.

Lemma compare_gt_lt (a b : string) :
  String.compare a b = Gt <-> String.compare b a = Lt.
Proof.
  rewrite (String.compare_antisym b a).
  destruct (String.compare a b); simpl; split; congruence.
Qed.

Lemma compare_eq (a b : string) : String.compare a b = Eq <-> a = b.
Proof.
  split; [apply String.compare_eq_iff | intros ->; apply compare_refl].
Qed.

Lemma length_doubleQuotes (s : string) :
  (String.length s <= String.length (doubleQuotes s))%nat.
Proof.
  induction s as [|c s IH]; simpl; [lia|].
  destruct (Ascii.eqb c DQUOTE); simpl; lia.
Qed.

Lemma length_append (s t : string) :
  String.length (s ++ t)%string = (String.length s + String.length t)%nat.
Proof.
  induction s as [|c s IH]; [reflexivity|].
  change (S (String.length (s ++ t)%string)
          = S (String.length s + String.length t)). by rewrite IH.
Qed.

End StringFacts.

(* ===================================================================== *)
(** * Facts about the comparator and the sort *)
(* ===================================================================== *)

Section ComparisonFacts.
Import JsString App Spec.

Lemma comparison_compare (a b : string) :
  comparison a b =
  match String.compare a b with Eq => 0 | Lt => -1 | Gt => 1 end%Z.
Proof.
  unfold comparison, gt, lt, String.ltb.
  rewrite (String.compare_antisym b a).
  destruct (String.compare a b); reflexivity.
Qed.

Lemma comparison_antisym (a b : string) :
  comparison b a = (- comparison a b)%Z.
Proof.
  rewrite !comparison_compare, (String.compare_antisym a b).
  destruct (String.compare b a); reflexivity.
Qed.

Lemma comparison_zero (a b : string) : comparison a b = 0%Z <-> a = b.
Proof.
  rewrite comparison_compare, <- compare_eq.
  destruct (String.compare a b); split; (done || lia).
Qed.


Lemma comparison_trans (a b c : string) :
  (comparison a b <= 0 -> comparison b c <= 0 -> comparison a c <= 0)%Z.
Proof.
  rewrite !comparison_compare.
  destruct (String.compare a b) eqn:E1; [ | | lia].
  - apply compare_eq in E1 as ->. done.
  - destruct (String.compare b c) eqn:E2; [ | | lia].
    + apply compare_eq in E2 as <-. by rewrite E1.
    + by rewrite (compare_lt_trans _ _ _ E1 E2).
Qed.

Context {A : Type} (key : A -> string).

Lemma cmpKey_flip dir (a b : A) :
  cmpKey key (flipDir dir) a b = (- cmpKey key dir a b)%Z.
Proof. unfold cmpKey. destruct dir; simpl; lia. Qed.

Lemma cmpKey_antisym dir (a b : A) :
  cmpKey key dir b a = (- cmpKey key dir a b)%Z.
Proof.
  unfold cmpKey. rewrite (comparison_antisym (key a) (key b)).
  destruct dir; simpl; lia.
Qed.

Lemma cmpKey_zero dir (a b : A) : cmpKey key dir a b = 0%Z <-> key a = key b.
Proof.
  rewrite <- comparison_zero. unfold cmpKey. destruct dir; simpl; lia.
Qed.

#[local] Instance precedes_trans dir : Transitive (precedes key dir).
Proof.
  intros a b c. unfold precedes, cmpKey. destruct dir; simpl.
  - apply comparison_trans.
  - intros H1 H2.
    pose proof (comparison_trans (key c) (key b) (key a)) as T.
    rewrite (comparison_antisym (key b) (key c)) in T.
    rewrite (comparison_antisym (key a) (key b)) in T.
    rewrite (comparison_antisym (key a) (key c)) in T. lia.
Qed.

Lemma precedes_total dir (a b : A) :
  ~ precedes key dir a b -> precedes key dir b a.
Proof. unfold precedes. rewrite (cmpKey_antisym dir a b). lia. Qed.

(** *** The stable insertion sort *)

Lemma insertBy_Sorted dir x l :
  Sorted (precedes key dir) l ->
  Sorted (precedes key dir) (insertBy (cmpKey key dir) x l).
Proof.
  induction 1 as [|y l Hl IH Hhd]; simpl; [by repeat constructor|].
  destruct (Z.leb_spec (cmpKey key dir x y) 0) as [Hle|Hgt].
  - repeat constructor; done.
  - constructor; [exact IH|].
    assert (precedes key dir y x) as Hyx by (apply precedes_total; unfold precedes; lia).
    destruct Hhd as [|z l Hyz]; simpl; [by constructor|].
    destruct (cmpKey key dir x z <=? 0)%Z; by constructor.
Qed.

Lemma sortBy_Sorted dir l :
  Sorted (precedes key dir) (sortBy (cmpKey key dir) l).
Proof. induction l; simpl; [constructor | by apply insertBy_Sorted]. Qed.

Lemma sortBy_sorted_id dir l :
  Sorted (precedes key dir) l -> sortBy (cmpKey key dir) l = l.
Proof.
  induction 1 as [|x l Hl IH Hhd]; simpl; [done|]. rewrite IH.
  destruct Hhd as [|y l Hxy]; simpl; [done|].
  unfold precedes in Hxy. by apply Z.leb_le in Hxy as ->.
Qed.

Lemma sortBy_idem dir l :
  sortBy (cmpKey key dir) (sortBy (cmpKey key dir) l)
  = sortBy (cmpKey key dir) l.
Proof. apply sortBy_sorted_id, sortBy_Sorted. Qed.

Lemma insertBy_perm (cmp : A -> A -> Z) x l : insertBy cmp x l ≡ₚ x :: l.
Proof.
  induction l as [|y l IH]; simpl; [done|].
  destruct (cmp x y <=? 0)%Z; [done|]. by rewrite IH, Permutation_swap.
Qed.

Lemma sortBy_perm (cmp : A -> A -> Z) l : sortBy cmp l ≡ₚ l.
Proof.
  induction l as [|x l IH]; simpl; [done|]. by rewrite insertBy_perm, IH.
Qed.

(** Stability: the entries of any one key keep their order. *)
Lemma insertBy_filter dir k x l :
  filter (fun a => key a = k) (insertBy (cmpKey key dir) x l)
  = filter (fun a => key a = k) (x :: l).
Proof.
  induction l as [|y l IH]; simpl; [done|].
  destruct (Z.leb_spec (cmpKey key dir x y) 0) as [Hle|Hgt]; [done|].
  assert (key x <> key y) as Hne.
  { intros E. apply (cmpKey_zero dir) in E. lia. }
  rewrite (filter_cons _ y), IH, !filter_cons.
  destruct (decide (key y = k)), (decide (key x = k)); congruence.
Qed.

Lemma sortBy_stable dir k l :
  filter (fun a => key a = k) (sortBy (cmpKey key dir) l)
  = filter (fun a => key a = k) l.
Proof.
  induction l as [|x l IH]; simpl; [done|].
  by rewrite insertBy_filter, !filter_cons, IH.
Qed.

(** An element that sorts after all others goes last. *)
Lemma insertBy_last (cmp : A -> A -> Z) x l :
  Forall (fun y => 0 < cmp x y)%Z l -> insertBy cmp x l = l ++ [x].
Proof.
  induction 1 as [|y l Hy Hl IH]; simpl; [done|].
  destruct (Z.leb_spec (cmp x y) 0); [lia|]. by rewrite IH.
Qed.

(** Sorting a strictly ordered list the other way round reverses it. *)
Lemma sortBy_flip_reverse dir l :
  StronglySorted (strictlyPrecedes key dir) l ->
  sortBy (cmpKey key (flipDir dir)) l = reverse l.
Proof.
  induction 1 as [|x l Hl IH Hx]; simpl; [done|].
  rewrite IH, reverse_cons. apply insertBy_last.
  apply Forall_reverse. eapply Forall_impl; [exact Hx|].
  intros y Hy. unfold strictlyPrecedes in Hy. rewrite cmpKey_flip. lia.
Qed.

Lemma Sorted_strict dir l :
  Sorted (precedes key dir) l -> NoDup (map key l) ->
  StronglySorted (strictlyPrecedes key dir) l.
Proof.
  intros Hs%Sorted_StronglySorted; [|apply _].
  induction Hs as [|x l Hl IH Hx]; intros Hnd; [constructor|].
  simpl in Hnd. apply NoDup_cons in Hnd as [Hnotin Hnd].
  constructor; [by apply IH|].
  apply Forall_forall. intros y Hy.
  rewrite Forall_forall in Hx. specialize (Hx y Hy).
  unfold precedes in Hx. unfold strictlyPrecedes.
  assert (cmpKey key dir x y <> 0%Z); [|lia].
  intros E%cmpKey_zero. apply Hnotin. rewrite E.
  apply list_elem_of_fmap_2. done.
Qed.

(** Toggling the direction of a sorted list without ties reverses it. *)
Lemma sortBy_toggle dir l :
  NoDup (map key l) ->
  sortBy (cmpKey key (flipDir dir)) (sortBy (cmpKey key dir) l)
  = reverse (sortBy (cmpKey key dir) l).
Proof.
  intros Hnd. apply sortBy_flip_reverse, Sorted_strict; [apply sortBy_Sorted|].
  eapply NoDup_Permutation_proper; [|exact Hnd].
  apply fmap_Permutation, sortBy_perm.
Qed.

(** The result of a stable sort is determined: a list in comparator
    order in which the entries of every key stand as they stood in the
    input is the list [sortBy] computes.  So the choice of insertion sort
    for [Array_sort] fixes nothing that ECMAScript leaves open. *)
Lemma sorted_filters_eq dir l1 l2 :
  StronglySorted (precedes key dir) l1 ->
  StronglySorted (precedes key dir) l2 ->
  (forall k, filter (fun a => key a = k) l1 = filter (fun a => key a = k) l2) ->
  l1 = l2.
Proof.
  intros H1. revert l2.
  induction H1 as [|x t1 Ht1 IH Hx]; intros l2 H2 Hf.
  { destruct l2 as [|y t2]; [done|].
    specialize (Hf (key y)). rewrite filter_cons in Hf.
    destruct (decide (key y = key y)); done. }
  destruct H2 as [|y t2 Ht2 Hy].
  { specialize (Hf (key x)). rewrite filter_cons in Hf.
    destruct (decide (key x = key x)); done. }
  assert (key x = key y) as Hk.
  { assert (precedes key dir y x) as Hyx.
    { pose proof (Hf (key x)) as E. rewrite (filter_cons _ x) in E.
      destruct (decide (key x = key x)); [|done].
      assert (x ∈ filter (fun a => key a = key x) (y :: t2)) as Hin
          by (rewrite <- E; left).
      apply list_elem_of_filter in Hin as [_ Hin].
      apply elem_of_cons in Hin as [->|Hin].
      - unfold precedes. by rewrite (proj2 (cmpKey_zero dir y y)).
      - rewrite Forall_forall in Hy. by apply Hy. }
    assert (precedes key dir x y) as Hxy.
    { pose proof (Hf (key y)) as E. rewrite (filter_cons _ y) in E.
      destruct (decide (key y = key y)); [|done].
      assert (y ∈ filter (fun a => key a = key y) (x :: t1)) as Hin
          by (rewrite E; left).
      apply list_elem_of_filter in Hin as [_ Hin].
      apply elem_of_cons in Hin as [->|Hin].
      - unfold precedes. by rewrite (proj2 (cmpKey_zero dir x x)).
      - rewrite Forall_forall in Hx. by apply Hx. }
    apply (cmpKey_zero dir). unfold precedes in Hxy, Hyx.
    rewrite (cmpKey_antisym dir x y) in Hyx. lia. }
  assert (x = y /\ forall k, filter (fun a => key a = k) t1
                             = filter (fun a => key a = k) t2) as [-> Ht].
  { split.
    - specialize (Hf (key x)). rewrite !filter_cons in Hf.
      destruct (decide (key x = key x)); [|done].
      destruct (decide (key y = key x)); [|congruence]. congruence.
    - intros k. specialize (Hf k). rewrite !filter_cons in Hf.
      destruct (decide (key x = k)), (decide (key y = k)); congruence. }
  f_equal. by apply IH.
Qed.

Lemma stable_sort_unique dir l l' :
  Sorted (precedes key dir) l' ->
  (forall k, filter (fun a => key a = k) l' = filter (fun a => key a = k) l) ->
  l' = sortBy (cmpKey key dir) l.
Proof.
  intros Hs Hf. apply (sorted_filters_eq dir).
  - apply Sorted_StronglySorted; [apply _ | done].
  - apply Sorted_StronglySorted; [apply _ | apply sortBy_Sorted].
  - intros k. by rewrite Hf, sortBy_stable.
Qed.

(** With a comparator that does not throw on the elements of the list,
    [Array_sort] is the pure sort. *)
Lemma insertM_pure (cmpM : A -> A -> Result Z) (cmp : A -> A -> Z) x l :
  (forall b, b ∈ l -> cmpM x b = Ok (cmp x b)) ->
  insertM cmpM x l = Ok (insertBy cmp x l).
Proof.
  induction l as [|y l IH]; intros H; simpl; [done|].
  rewrite (H y) by left. simpl.
  destruct (cmp x y <=? 0)%Z; [done|].
  rewrite IH; [done|]. intros b Hb. apply H. by right.
Qed.

Lemma Array_sort_pure (cmpM : A -> A -> Result Z) (cmp : A -> A -> Z) l :
  (forall a b, a ∈ l -> b ∈ l -> cmpM a b = Ok (cmp a b)) ->
  Array_sort cmpM l = Ok (sortBy cmp l).
Proof.
  induction l as [|x l IH]; intros H; simpl; [done|].
  rewrite IH by (intros a b Ha Hb; apply H; by right). simpl.
  apply insertM_pure. intros b Hb. apply H; [by left|].
  right. by rewrite <- (sortBy_perm cmp l).
Qed.

End ComparisonFacts.

(* ===================================================================== *)
(** * The two comparators *)
(* ===================================================================== *)

Section Comparators.
Import JsString Js App Spec.

(** The later revision: the key is always defined. *)
Lemma Part000_sortKey col a : Part000.sortKey col a = Ok (keyOf col a).
Proof.
  unfold Part000.sortKey, keyOf, concat, orElse, lowerOf.
  destruct (truthy (get a col)); by rewrite append_empty_r.
Qed.

Lemma Part000_compareEntries col dir a b :
  Part000.compareEntries col dir a b = Ok (cmpKey (keyOf col) dir a b).
Proof.
  unfold Part000.compareEntries. by rewrite !Part000_sortKey.
Qed.

Lemma Part000_sort st :
  Part000.sortAndRenderPasswords st =
  Ok (let sorted := sortBy (cmpKey (keyOf (sortColumn st)) (sortDirection st))
                           (currentPasswords st) in
      renderPasswords sorted (withCache sorted st)).
Proof.
  unfold Part000.sortAndRenderPasswords.
  rewrite (Array_sort_pure _ (cmpKey (keyOf (sortColumn st)) (sortDirection st)));
    [done|]. intros. apply Part000_compareEntries.
Qed.

(** [src/script.js]: the key is defined for a string and only then. *)
Lemma ScriptJs_sortKey_text col a s :
  get a col = VStr s -> ScriptJs.sortKey col a = Ok (keyOf col a).
Proof.
  intros E. unfold ScriptJs.sortKey, keyOf. rewrite E. simpl.
  destruct (String.eqb_spec s "") as [->|]; done.
Qed.

Lemma ScriptJs_sortKey_throws col a :
  (forall s, get a col <> VStr s) -> ScriptJs.sortKey col a = Throw TypeError.
Proof.
  intros H. unfold ScriptJs.sortKey. destruct (get a col); try done.
  by destruct (H s).
Qed.

(** The table of [src/script.js] is drawn when every entry has a
    password to take the length of, and only then. *)
Lemma maskedPassword_ok e :
  hasPassword e -> exists m, maskedPassword e = Ok m.
Proof.
  intros [H1 H2]. unfold maskedPassword.
  destruct (get e "password"); try done; by eexists.
Qed.

Lemma maskedPassword_throws e :
  ~ hasPassword e -> maskedPassword e = Throw TypeError.
Proof.
  intros H. unfold maskedPassword, hasPassword in *.
  destruct (get e "password"); try done; destruct H; by split.
Qed.

Lemma ScriptJs_render l st :
  Forall hasPassword l ->
  ScriptJs.renderPasswords l st = Ok (renderPasswords l st).
Proof.
  intros H. unfold ScriptJs.renderPasswords.
  assert (forEachM maskedPassword l = Ok tt) as ->; [|done].
  induction H as [|e l He Hl IH]; simpl; [done|].
  destruct (maskedPassword_ok _ He) as [m ->]. exact IH.
Qed.

Lemma ScriptJs_render_throws l st :
  Exists (fun e => ~ hasPassword e) l ->
  ScriptJs.renderPasswords l st = Throw TypeError.
Proof.
  intros H. unfold ScriptJs.renderPasswords.
  assert (forEachM maskedPassword l = Throw TypeError) as ->; [|done].
  induction H as [e l He|e l Hl IH]; simpl.
  - by rewrite (maskedPassword_throws _ He).
  - rewrite IH. unfold maskedPassword.
    destruct (get e "password"); done.
Qed.

Lemma hasPassword_perm (l l' : list Obj) :
  l ≡ₚ l' -> Forall hasPassword l -> Forall hasPassword l'.
Proof. by intros ->. Qed.

Lemma ScriptJs_sort st :
  textColumn (sortColumn st) (currentPasswords st) ->
  Forall hasPassword (currentPasswords st) ->
  ScriptJs.sortAndRenderPasswords st =
  Ok (let sorted := sortBy (cmpKey (keyOf (sortColumn st)) (sortDirection st))
                           (currentPasswords st) in
      renderPasswords sorted (withCache sorted st)).
Proof.
  intros Ht Hp. unfold ScriptJs.sortAndRenderPasswords.
  rewrite (Array_sort_pure _ (cmpKey (keyOf (sortColumn st)) (sortDirection st))).
  { simpl. apply ScriptJs_render.
    eapply hasPassword_perm; [|exact Hp]. symmetry. apply sortBy_perm. }
  intros a b Ha Hb. unfold textColumn in Ht. rewrite Forall_forall in Ht.
  destruct (Ht a Ha) as [sa Ea], (Ht b Hb) as [sb Eb].
  unfold ScriptJs.compareEntries.
  by rewrite (ScriptJs_sortKey_text _ _ _ Ea), (ScriptJs_sortKey_text _ _ _ Eb).
Qed.

(** Where the comparator of [src/script.js] does not throw, the two
    revisions sort alike. *)
Lemma sort_revisions_agree st :
  textColumn (sortColumn st) (currentPasswords st) ->
  Forall hasPassword (currentPasswords st) ->
  ScriptJs.sortAndRenderPasswords st = Part000.sortAndRenderPasswords st.
Proof. intros H Hp. by rewrite ScriptJs_sort, Part000_sort. Qed.


Lemma clickSort_same st :
  clickSort (sortColumn st) st
  = withSort (sortColumn st) (flipDir (sortDirection st)) st.
Proof. unfold clickSort. by rewrite String.eqb_refl. Qed.

End Comparators.

(* ===================================================================== *)
(** * The comparator over structured fields *)
(* ===================================================================== *)

Section StructuredFields.
Import JsString Js App Spec.











End StructuredFields.

(* ===================================================================== *)
(** * Properties of the list transform layer *)
(* ===================================================================== *)

Section SortProperties.
Import JsString Js App Spec.


(** Without the password the same sort throws while drawing the table:
    the cache of one entry that has lost its password. *)
Lemma ScriptJs_sort_throws_in_render st :
  textColumn (sortColumn st) (currentPasswords st) ->
  Exists (fun e => ~ hasPassword e) (currentPasswords st) ->
  ScriptJs.sortAndRenderPasswords st = Throw TypeError.
Proof.
  intros Ht Hp. unfold ScriptJs.sortAndRenderPasswords.
  rewrite (Array_sort_pure _ (cmpKey (keyOf (sortColumn st)) (sortDirection st))).
  { simpl. apply ScriptJs_render_throws.
    rewrite Exists_exists in *. destruct Hp as (e & He & Hn).
    exists e. split; [|exact Hn]. by rewrite sortBy_perm. }
  intros a b Ha Hb. unfold textColumn in Ht. rewrite Forall_forall in Ht.
  destruct (Ht a Ha) as [sa Ea], (Ht b Hb) as [sb Eb].
  unfold ScriptJs.compareEntries.
  by rewrite (ScriptJs_sortKey_text _ _ _ Ea), (ScriptJs_sortKey_text _ _ _ Eb).
Qed.

(** The same three facts for the later revision, whose comparator needs
    no assumption on the entries. *)
Lemma Part000_sort_laws (st : State) :
  exists st1,
    Part000.sortAndRenderPasswords st = Ok st1
    /\ Part000.sortAndRenderPasswords st1 = Ok st1
    /\ (forall k,
          filter (fun e => keyOf (sortColumn st) e = k) (currentPasswords st1)
          = filter (fun e => keyOf (sortColumn st) e = k) (currentPasswords st))
    /\ (distinctKeys (sortColumn st) (currentPasswords st) ->
        sortColumn st <> "" ->
        exists st2,
          Part000.headerClick (sortColumn st) st1 = Ok st2
          /\ currentPasswords st2 = reverse (currentPasswords st1)).
Proof.
  set (col := sortColumn st). set (dir := sortDirection st).
  set (sorted := sortBy (cmpKey (keyOf col) dir) (currentPasswords st)).
  exists (renderPasswords sorted (withCache sorted st)).
  split; [by rewrite Part000_sort|].
  split.
  { rewrite Part000_sort. simpl. fold col dir. unfold sorted.
    by rewrite sortBy_idem. }
  split; [intros k; apply sortBy_stable|].
  intros Hnd Hcol.
  exists (let r := reverse sorted in
          renderPasswords r
            (withCache r (withSort col (flipDir dir)
                                   (renderPasswords sorted (withCache sorted st))))).
  split; [|done].
  unfold Part000.headerClick.
  destruct (String.eqb_spec col "") as [E|_]; [done|].
  change col with (sortColumn (renderPasswords sorted (withCache sorted st))).
  rewrite clickSort_same, Part000_sort. simpl.
  fold col dir. unfold sorted. by rewrite sortBy_toggle.
Qed.



End SortProperties.

Section SortExamples.
Import JsString Js App Spec.







(** In [src/script.js] an entry that has lost its password cannot be
    drawn: sorting a cache that holds it throws, although the sort
    column is text. *)
Lemma ScriptJs_sort_throws_example :
  textColumn "username" [noPassword]
  /\ ScriptJs.sortAndRenderPasswords (withCache [noPassword] stByUser)
     = Throw TypeError
  /\ exists st1,
       Part000.sortAndRenderPasswords (withCache [noPassword] stByUser)
       = Ok st1.
Proof.
  split; [repeat constructor; eexists; vm_compute; reflexivity|].
  split; [vm_compute; reflexivity|].
  eexists. apply Part000_sort.
Qed.

(** In [src/script.js] the comparator is not total: an entry without the
    sort column makes it throw. *)
Lemma ScriptJs_comparator_throws :
  ScriptJs.compareEntries "website" Asc ∅ (mkEntry 1 "a.com" "u" "p")
  = Throw TypeError.
Proof. vm_compute. reflexivity. Qed.

End SortExamples.

Section FilterProperties.
Import JsString Js App Spec.

Lemma filterM_sublist {A} (p : A -> Result bool) (l r : list A) :
  filterM p l = Ok r -> sublist r l.
Proof.
  revert r. induction l as [|x l IH]; simpl; intros r.
  - intros [= <-]. constructor.
  - destruct (p x) as [b|e]; simpl; [|done].
    destruct (filterM p l) as [r'|e]; simpl; [|done].
    intros [= <-]. destruct b; constructor; by apply IH.
Qed.

(** What [filterPasswords] does, by the two branches of its test. *)
Lemma filterPasswords_blank st term :
  trim (toLowerCase term) = "" ->
  Part000.filterPasswords term st = Part000.sortAndRenderPasswords st.
Proof. intros E. unfold Part000.filterPasswords. by rewrite E. Qed.

Lemma filterPasswords_nonblank st term st' :
  trim (toLowerCase term) <> "" ->
  Part000.filterPasswords term st = Ok st' ->
  exists r, sublist r (currentPasswords st) /\ st' = renderPasswords r st.
Proof.
  intros Hne. unfold Part000.filterPasswords.
  destruct (String.eqb_spec (trim (toLowerCase term)) "") as [E|_]; [done|].
  destruct (filterM _ _) as [r|e] eqn:Er; simpl; [|done].
  intros [= <-]. exists r. split; [by eapply filterM_sublist|done].
Qed.

Lemma sort_inSortOrder st :
  inSortOrder st ->
  Part000.sortAndRenderPasswords st
  = Ok (renderPasswords (currentPasswords st)
                        (withCache (currentPasswords st) st)).
Proof.
  intros Hs. rewrite Part000_sort. simpl. by rewrite sortBy_sorted_id.
Qed.

(** A filter with a non-blank term leaves the cache, the sort state and
    the store alone in every state, sorted or not. *)
Lemma searchKeyup_nonblank st term :
  trim (toLowerCase term) <> "" ->
  currentPasswords (Part000.searchKeyup term st) = currentPasswords st
  /\ sortColumn (Part000.searchKeyup term st) = sortColumn st
  /\ sortDirection (Part000.searchKeyup term st) = sortDirection st
  /\ store (Part000.searchKeyup term st) = store st.
Proof.
  intros Hne. unfold Part000.searchKeyup.
  destruct (Part000.filterPasswords term st) as [st'|e] eqn:E; [|done].
  destruct (filterPasswords_nonblank _ _ _ Hne E) as (r & _ & ->). done.
Qed.

Lemma searchKeyup_inSortOrder st term :
  inSortOrder st ->
  currentPasswords (Part000.searchKeyup term st) = currentPasswords st
  /\ sortColumn (Part000.searchKeyup term st) = sortColumn st
  /\ sortDirection (Part000.searchKeyup term st) = sortDirection st
  /\ store (Part000.searchKeyup term st) = store st
  /\ (trim (toLowerCase term) = "" ->
      rendered (Part000.searchKeyup term st) = currentPasswords st).
Proof.
  intros Hs.
  destruct (String.eqb_spec (trim (toLowerCase term)) "") as [E|Hne].
  - unfold Part000.searchKeyup.
    rewrite (filterPasswords_blank _ _ E), (sort_inSortOrder _ Hs). done.
  - destruct (searchKeyup_nonblank st term Hne) as (?&?&?&?). done.
Qed.

(** C7, as amended.  In a state whose cache is in the current sort
    order, and for every search term: the filter leaves the cache as it
    was; whatever it renders is a subsequence of the cache in its
    current order; and clearing the search box afterwards renders the
    cache in exactly the order it had before the filter, with the cache
    and the store unchanged. *)
Theorem filter_nondestructive (st : State) (term : string) :
  inSortOrder st ->
  let st1 := Part000.searchKeyup term st in
  let st2 := Part000.searchKeyup "" st1 in
  currentPasswords st1 = currentPasswords st
  /\ store st1 = store st
  /\ (forall st', Part000.filterPasswords term st = Ok st' ->
                  st1 = st' /\ sublist (rendered st') (currentPasswords st))
  /\ currentPasswords st2 = currentPasswords st
  /\ rendered st2 = currentPasswords st
  /\ store st2 = store st.
Proof.
  intros Hs st1 st2.
  destruct (searchKeyup_inSortOrder st term Hs) as (Hc & Hcol & Hdir & Hst & Hr).
  fold st1 in Hc, Hcol, Hdir, Hst, Hr.
  assert (inSortOrder st1) as Hs1.
  { unfold inSortOrder. by rewrite Hc, Hcol, Hdir. }
  destruct (searchKeyup_inSortOrder st1 "" Hs1) as (Hc2 & _ & _ & Hst2 & Hr2).
  fold st2 in Hc2, Hst2, Hr2.
  repeat split; try congruence.
  - unfold st1, Part000.searchKeyup. by rewrite H.
  - destruct (String.eqb_spec (trim (toLowerCase term)) "") as [E|Hne].
    + rewrite (filterPasswords_blank _ _ E), (sort_inSortOrder _ Hs) in H.
      injection H as <-. done.
    + destruct (filterPasswords_nonblank _ _ _ Hne H) as (r & Hsub & ->). done.
  - rewrite Hr2 by reflexivity. exact Hc.
Qed.

Lemma byUser_inSortOrder : inSortOrder stByUser.
Proof.
  unfold inSortOrder. repeat constructor.
  unfold precedes. vm_compute. discriminate.
Qed.

(** Searching for [b] among [alice] and [bob] shows the one entry that
    matches; clearing the box shows both again, in the order they had. *)
Lemma filter_nondestructive_witness :
  inSortOrder stByUser
  /\ currentPasswords (Part000.searchKeyup "b" stByUser) = byUser
  /\ rendered (Part000.searchKeyup "" (Part000.searchKeyup "b" stByUser))
     = byUser.
Proof.
  split; [exact byUser_inSortOrder|].
  destruct (filter_nondestructive stByUser "b" byUser_inSortOrder)
    as (H1 & _ & _ & _ & H5 & _).
  split; [exact H1 | exact H5].
Defined.

(** C7 as stated fails in a state the application reaches: with the
    cache sorted by user name, saving an edit that renames [alice] to
    [zed] overwrites the cache slot in place; a search and the clearing
    of the search box then re-sort the cache, so the filter has changed
    the cache and the order shown is not the one before the filter. *)
Lemma filter_resorts_counterexample :
  exists st1,
    Part000.editSave (VNum 1) "zed" "p1" noFaults stByUser = Ok st1
    /\ let st2 := Part000.searchKeyup "b" st1 in
       let st3 := Part000.searchKeyup "" st2 in
       map (fun e => get e "username") (currentPasswords st1)
       = [VStr "zed"; VStr "bob"]
       /\ map (fun e => get e "username") (currentPasswords st3)
          = [VStr "bob"; VStr "zed"]
       /\ currentPasswords st3 <> currentPasswords st1
       /\ rendered st3 <> currentPasswords st1.
Proof.
  eexists. split; [vm_compute; reflexivity|].
  split; [vm_compute; reflexivity|].
  split; [vm_compute; reflexivity|].
  split; intros H; apply (f_equal (map (fun o => get o "id"))) in H;
    vm_compute in H; discriminate H.
Qed.

End FilterProperties.

(* ===================================================================== *)
(** * Properties of the CRUD service *)
(* ===================================================================== *)

Section UpdateProperties.
Import JsString Js App Spec.
Variable sortAndRenderPasswords : State -> Result State.

Lemma Result_bind_Ok {A B : Type} (a : A) (k : A -> Result B) :
  (Ok a ≫= k) = k a.
Proof. reflexivity. Qed.

Lemma absentFrom_find id l :
  absentFrom id l -> List.find (fun p => strictEq (get p "id") id) l = None.
Proof.
  induction 1 as [|p l Hp Hl IH]; simpl; [done|]. by rewrite Hp.
Qed.

Lemma absentFrom_findIndex id l :
  absentFrom id l -> findIndex (fun p => strictEq (get p "id") id) l = None.
Proof.
  induction 1 as [|p l Hp Hl IH]; simpl; [done|]. by rewrite Hp, IH.
Qed.

(** C2.  Update is the Save listener of the edit dialog together with
    the [updatePassword] it calls, which has no other caller.  When no
    cache entry has the id, the listener reports that the entry was not
    found and ends there: no request reaches the store, and store and
    cache are as before.  The second part records where the check sits:
    [updatePassword] on its own has no such exit, and given an entry
    whose id is absent from the cache it leaves cache and table alone
    and issues the [put]; the listener never calls it so. *)
Theorem update_absent_id (st : State) (id : Val) (usernameInput passwordInput : string)
  (f : Faults) :
  absentFrom id (currentPasswords st) ->
  (exists st',
     Shared.editSave sortAndRenderPasswords id usernameInput passwordInput f st
     = Ok st'
     /\ alerts st' = alerts st ++ [msgIdNotFound]
     /\ storeCalls st' = storeCalls st
     /\ store st' = store st
     /\ currentPasswords st' = currentPasswords st)
  /\ (forall entry k s,
        get entry "id" = id -> dbOpen st = true -> writeFails f = false ->
        IDB.put entry (store st) = IDB.Stored k s ->
        Shared.updatePassword sortAndRenderPasswords entry f st
        = Ok (withStore s (logCalls [CallPut entry] st))).
Proof.
  intros Habs. split.
  - exists (alert msgIdNotFound st). unfold Shared.editSave.
    by rewrite (absentFrom_find _ _ Habs).
  - intros entry k s <- Hdb Hw Hput. unfold Shared.updatePassword.
    rewrite Hdb, (absentFrom_findIndex _ _ Habs), Result_bind_Ok, Hput, Hw.
    done.
Qed.

End UpdateProperties.

Section UpdateExamples.
Import JsString Js App Spec.

Lemma byUser_absent_9 : absentFrom (VNum 9) (currentPasswords stByUser).
Proof. repeat constructor. Qed.

(** With [alice] (id 1) and [bob] (id 2) in the cache, saving an edit
    for id 9 only alerts. *)
Lemma update_absent_id_witness :
  absentFrom (VNum 9) (currentPasswords stByUser)
  /\ exists st',
       Part000.editSave (VNum 9) "carol" "pw" noFaults stByUser = Ok st'
       /\ alerts st' = [msgIdNotFound]
       /\ storeCalls st' = []
       /\ store st' = store stByUser.
Proof.
  split; [exact byUser_absent_9|].
  destruct (update_absent_id Part000.sortAndRenderPasswords stByUser (VNum 9)
              "carol" "pw" noFaults byUser_absent_9)
    as [(st' & H1 & H2 & H3 & H4 & _) _].
  exists st'. repeat split; assumption.
Defined.

End UpdateExamples.

(* ===================================================================== *)
(** * Properties of the export *)
(* ===================================================================== *)

Section ExportProperties.
Import JsString Js App Spec.

Lemma length_zero_nil {A} (l : list A) :
  (length l =? 0)%nat = true <-> l = [].
Proof. destruct l; simpl; split; done. Qed.

Lemma needsQuoting_hasSpecial (s : string) :
  Part000.needsQuoting s = true <-> hasSpecial s.
Proof.
  unfold Part000.needsQuoting, hasSpecial. split.
  - intros H. apply orb_prop in H as [H|H]; [apply orb_prop in H as [H|H]|];
      eexists; (split; [|exact H]); auto.
  - intros (c & [-> | [-> | ->]] & H); rewrite H;
      rewrite ?orb_true_r; reflexivity.
Qed.

Lemma quoted_longer (s : string) : quoted s <> s.
Proof.
  intros E. apply (f_equal String.length) in E. unfold quoted in E.
  rewrite !length_append in E. pose proof (length_doubleQuotes s).
  simpl in E. lia.
Qed.

Lemma csvEscape_fieldText (v : Val) :
  Part000.csvEscape v
  = if Part000.needsQuoting (fieldText v) then quoted (fieldText v)
    else fieldText v.
Proof. destruct v; reflexivity. Qed.

(** The quoting is the one the parser of the same revision undoes: a
    quoted field reads back as the field. *)
Lemma append_cons (c : ascii) (s t : string) :
  (String c s ++ t)%string = String c (s ++ t)%string.
Proof. reflexivity. Qed.

Lemma append_assoc1 (s : string) (c : ascii) (t : string) :
  ((s ++ str1 c) ++ t)%string = (s ++ String c t)%string.
Proof.
  induction s as [|d s IH]; [reflexivity|].
  rewrite !append_cons. by rewrite IH.
Qed.

Lemma parseRowFrom_quoted (s : string) (fields : list string) (cur : string) :
  Part000.parseRowFrom (doubleQuotes s ++ str1 DQUOTE)%string fields cur true
  = fields ++ [(cur ++ s)%string].
Proof.
  revert cur. induction s as [|c s IH]; intros cur.
  - rewrite append_empty_r. reflexivity.
  - simpl doubleQuotes. destruct (Ascii.eqb c DQUOTE) eqn:E.
    + apply Ascii.eqb_eq in E as ->.
      rewrite !append_cons. simpl. rewrite IH. by rewrite append_assoc1.
    + rewrite append_cons. simpl. rewrite E, IH. by rewrite append_assoc1.
Qed.

Lemma parseRow_quoted (s : string) : Part000.parseRow (quoted s) = [s].
Proof.
  unfold Part000.parseRow.
  change (quoted s) with (String DQUOTE (doubleQuotes s ++ str1 DQUOTE)%string).
  simpl. apply parseRowFrom_quoted.
Qed.

(** C3, as amended.  For every cache that is not empty, the
    delimited-text export offers one file whose text is the header
    [website,username,password] and one row per entry, joined by CRLF; a
    row is the three fields joined by commas; and a field is wrapped in
    quotes, its own quotes doubled, if and only if it contains a quote, a
    comma or a line feed, and is emitted as it is otherwise. *)
Theorem export_csv_format (env : Platform) (st : State) :
  currentPasswords st <> [] ->
  Part000.exportToCSV env st
  = download
      (csvFile env
         (join CRLF ("website,username,password"
                     :: map Part000.csvRow (currentPasswords st))))
      st
  /\ (forall row,
        Part000.csvRow row
        = join "," [Part000.csvEscape (get row "website");
                    Part000.csvEscape (get row "username");
                    Part000.csvEscape (get row "password")])
  /\ (forall v,
        (hasSpecial (fieldText v) ->
         Part000.csvEscape v = quoted (fieldText v))
        /\ (~ hasSpecial (fieldText v) ->
            Part000.csvEscape v = fieldText v)
        /\ (Part000.csvEscape v = quoted (fieldText v)
            <-> hasSpecial (fieldText v))).
Proof.
  intros Hne. split.
  { unfold Part000.exportToCSV.
    destruct (length (currentPasswords st) =? 0)%nat eqn:E; [|reflexivity].
    by apply length_zero_nil in E. }
  split; [reflexivity|].
  intros v. rewrite csvEscape_fieldText, <- needsQuoting_hasSpecial.
  destruct (Part000.needsQuoting (fieldText v)) eqn:E.
  - repeat split; done.
  - repeat split; try done. intros H. symmetry in H.
    by apply quoted_longer in H.
Qed.

(** Two entries export as three CRLF-separated lines; a password with a
    comma is wrapped in quotes. *)
Lemma export_csv_format_witness :
  currentPasswords stByUser <> []
  /\ downloads (Part000.exportToCSV env0 stByUser)
     = [csvFile env0
          ("website,username,password" ++ CRLF ++
           "a.com,alice,p1" ++ CRLF ++ "b.com,bob,p2")%string]
  /\ Part000.csvEscape (VStr "p,1")
     = (str1 DQUOTE ++ "p,1" ++ str1 DQUOTE)%string.
Proof.
  assert (currentPasswords stByUser <> []) as Hne by discriminate.
  split; [exact Hne|].
  destruct (export_csv_format env0 stByUser Hne) as (H1 & _ & H3).
  split.
  - rewrite H1. vm_compute. reflexivity.
  - destruct (H3 (VStr "p,1")) as (H & _ & _). rewrite H; [reflexivity|].
    exists COMMA. split; [auto | reflexivity].
Defined.

(** C3 as stated fails for the empty cache: nothing is serialized, no
    header either; the export alerts and offers no file. *)
Lemma export_csv_empty_counterexample :
  currentPasswords st0 = []
  /\ Part000.exportToCSV env0 st0 = alert msgNoExport st0
  /\ downloads (Part000.exportToCSV env0 st0) = []
  /\ Part000.exportToCSV env0 st0
     <> download (csvFile env0 (Part000.csvText (currentPasswords st0))) st0.
Proof.
  split; [reflexivity|]. split; [reflexivity|]. split; [reflexivity|].
  intros H. apply (f_equal downloads) in H. vm_compute in H. discriminate H.
Qed.

(** In [src/script.js] every cell goes through [JSON.stringify], so a
    field is wrapped in quotes whether or not it needs it. *)
Lemma ScriptJs_export_cells (env : Platform) (st : State) :
  currentPasswords st <> [] ->
  ScriptJs.exportToCSV env st
  = download
      (csvFile env
         (join CRLF
            ("website,username,password"
             :: map (fun row =>
                       join "," [ScriptJs.csvCell env (get row "website");
                                 ScriptJs.csvCell env (get row "username");
                                 ScriptJs.csvCell env (get row "password")])
                    (currentPasswords st))))
      st.
Proof.
  intros Hne. unfold ScriptJs.exportToCSV.
  destruct (length (currentPasswords st) =? 0)%nat eqn:E; [|reflexivity].
  by apply length_zero_nil in E.
Qed.

(** C10.  With an empty cache both exports, in both revisions, alert
    [No passwords to export.] and do nothing else: no file is offered,
    and cache, store, store requests and sort state are as before. *)
Theorem export_empty_cache (env : Platform) (st : State) :
  currentPasswords st = [] ->
  ScriptJs.exportPasswords env st = alert msgNoExport st
  /\ ScriptJs.exportToCSV env st = alert msgNoExport st
  /\ Part000.exportPasswords env st = alert msgNoExport st
  /\ Part000.exportToCSV env st = alert msgNoExport st
  /\ msgNoExport = "No passwords to export."
  /\ downloads (alert msgNoExport st) = downloads st
  /\ alerts (alert msgNoExport st) = alerts st ++ [msgNoExport]
  /\ currentPasswords (alert msgNoExport st) = currentPasswords st
  /\ store (alert msgNoExport st) = store st
  /\ storeCalls (alert msgNoExport st) = storeCalls st
  /\ rendered (alert msgNoExport st) = rendered st.
Proof.
  intros E.
  unfold ScriptJs.exportPasswords, Part000.exportPasswords,
    Shared.exportPasswords, ScriptJs.exportToCSV, Part000.exportToCSV.
  repeat split; rewrite E; reflexivity.
Qed.

Lemma export_empty_cache_witness :
  currentPasswords st0 = []
  /\ ScriptJs.exportPasswords env0 st0 = alert msgNoExport st0
  /\ ScriptJs.exportToCSV env0 st0 = alert msgNoExport st0.
Proof.
  split; [reflexivity|].
  destruct (export_empty_cache env0 st0 eq_refl) as (H1 & H2 & _).
  split; [exact H1 | exact H2].
Defined.

End ExportProperties.

(* ===================================================================== *)
(** * Properties of the import *)
(* ===================================================================== *)

Section ImportValidation.
Import JsString Js App Spec.

Lemma filterM_none {A} (p : A -> Result bool) (l : list A) :
  Forall (fun x => p x = Ok false) l -> filterM p l = Ok [].
Proof.
  induction 1 as [|x l Hx Hl IH]; simpl; [done|]. by rewrite Hx, IH.
Qed.

Lemma missing_or_empty_falsy (o : Obj) (k : string) :
  o !! k = None \/ o !! k = Some (VStr "") -> truthy (get o k) = false.
Proof. unfold get. by intros [-> | ->]. Qed.

Lemma failsValidation_invalid (c : Cand) :
  failsValidation c ->
  ScriptJs.isValid c = Ok false /\ Part000.isValid c = Ok false.
Proof.
  destruct c as [o|v]; simpl; [|done].
  intros (k & Hk & Hf).
  unfold csvHeaders in Hk.
  apply elem_of_cons in Hk as [->|Hk]; [by rewrite Hf|].
  apply elem_of_cons in Hk as [->|Hk]; [by rewrite Hf, andb_false_r|].
  apply elem_of_cons in Hk as [->|Hk]; [by rewrite Hf, andb_false_r|].
  by apply elem_of_nil in Hk.
Qed.

(** C8.  When every candidate record of an import fails validation (its
    website, user name or password is missing, empty or otherwise
    falsy), the import, in
    both revisions and for both formats, alerts that no valid entry was
    found and does nothing else: no request reaches the store, and store
    and cache are as before. *)
Theorem import_no_valid_entries (fmt : Format) (l : list Cand) (f : Faults)
  (st : State) :
  Forall failsValidation l ->
  ScriptJs.importParsed fmt (ParsedArray l) f st = Ok (alert msgNoValid st)
  /\ Part000.importParsed fmt (ParsedArray l) f st = Ok (alert msgNoValid st)
  /\ msgNoValid = "No valid password entries found in the file."
  /\ alerts (alert msgNoValid st) = alerts st ++ [msgNoValid]
  /\ store (alert msgNoValid st) = store st
  /\ storeCalls (alert msgNoValid st) = storeCalls st
  /\ currentPasswords (alert msgNoValid st) = currentPasswords st.
Proof.
  intros Hl.
  assert (filterM ScriptJs.isValid l = Ok []) as E1.
  { apply filterM_none. eapply Forall_impl; [exact Hl|].
    intros c Hc. by apply failsValidation_invalid in Hc as [? _]. }
  assert (filterM Part000.isValid l = Ok []) as E2.
  { apply filterM_none. eapply Forall_impl; [exact Hl|].
    intros c Hc. by apply failsValidation_invalid in Hc as [_ ?]. }
  unfold ScriptJs.importParsed, Part000.importParsed, Shared.importParsed.
  rewrite E1, E2. repeat split.
Qed.

(** A file whose only data row has an empty password. *)
Lemma import_no_valid_entries_witness :
  Forall failsValidation (map CObj (Part000.parseCSV
     ("website,username,password" ++ str1 LF ++ "a.com,bob,")%string))
  /\ Part000.importCSV
       ("website,username,password" ++ str1 LF ++ "a.com,bob,")%string
       noFaults stByUser
     = Ok (alert msgNoValid stByUser).
Proof.
  assert (Forall failsValidation (map CObj (Part000.parseCSV
     ("website,username,password" ++ str1 LF ++ "a.com,bob,")%string))) as H.
  { repeat constructor. exists "password".
    split; [set_solver|]. apply missing_or_empty_falsy. right.
    vm_compute. reflexivity. }
  split; [exact H|].
  unfold Part000.importCSV.
  exact (proj1 (proj2 (import_no_valid_entries FCsv _ noFaults stByUser H))).
Defined.

End ImportValidation.

Section ImportAdds.
Import JsString Js App Spec.

(** What a successful [add] has done. *)
Lemma add_Stored (o : Obj) (s s1 : IDB.ObjectStore) (k : IDB.Key) :
  IDB.add o s = IDB.Stored k s1 ->
  IDB.records s !! k = None
  /\ (IDB.keyGen s <= IDB.keyGen s1)%Z
  /\ (forall k' v, IDB.records s !! k' = Some v ->
                   IDB.records s1 !! k' = Some v)
  /\ match IDB.extractKey o with
     | IDB.ValidKey k0 => k = k0 /\ IDB.records s1 !! k = Some o
     | IDB.NoKey =>
         k = IDB.KNum (IDB.keyGen s)
         /\ IDB.keyGen s1 = (IDB.keyGen s + 1)%Z
         /\ IDB.records s1 !! k = Some (<["id" := VNum (IDB.keyGen s)]> o)
     | IDB.InvalidKey => False
     end.
Proof.
  unfold IDB.add, IDB.storeRecord.
  destruct (IDB.extractKey o) as [| |k0]; [|done|].
  - destruct (IDB.maxGenerated <? IDB.keyGen s)%Z; [done|].
    simpl. case_bool_decide as Hk; [done|]. intros [= <- <-]. simpl.
    assert (IDB.records s !! IDB.KNum (IDB.keyGen s) = None) as Hnone.
    { destruct (IDB.records s !! IDB.KNum (IDB.keyGen s)) eqn:E; [|done].
      destruct Hk. by eexists. }
    split; [done|]. split; [lia|]. split.
    + intros k' v Hv. rewrite lookup_insert_ne; [done|]. congruence.
    + by rewrite lookup_insert_eq.
  - simpl. case_bool_decide as Hk; [done|]. intros [= <- <-]. simpl.
    assert (IDB.records s !! k0 = None) as Hnone.
    { destruct (IDB.records s !! k0) eqn:E; [|done]. destruct Hk. by eexists. }
    split; [done|]. split.
    { destruct k0 as [n|]; [|lia].
      destruct (IDB.keyGen s <=? Z.min n IDB.maxGenerated)%Z eqn:E; lia. }
    split.
    + intros k' v Hv. rewrite lookup_insert_ne; [done|]. congruence.
    + by rewrite lookup_insert_eq.
Qed.

(** An [add] under a key in use fails the request. *)
Lemma add_taken (o v : Obj) (s : IDB.ObjectStore) (k : IDB.Key) :
  IDB.extractKey o = IDB.ValidKey k -> IDB.records s !! k = Some v ->
  IDB.add o s = IDB.ConstraintError.
Proof.
  intros Hk Hv. unfold IDB.add, IDB.storeRecord. rewrite Hk. simpl.
  case_bool_decide as H; [done|]. destruct H. by eexists.
Qed.

(** What a committed sequence of [add]s has done. *)
Lemma runAdds_spec (q : list Obj) (s s' : IDB.ObjectStore) :
  runAdds q s = Some s' ->
  (IDB.keyGen s <= IDB.keyGen s')%Z
  /\ (forall k v, IDB.records s !! k = Some v -> IDB.records s' !! k = Some v)
  /\ (forall o, o ∈ q -> storedAs s s' o).
Proof.
  revert s. induction q as [|o q IH]; simpl; intros s.
  { intros [= <-]. split; [lia|]. split; [done|]. intros o Ho. by inv Ho. }
  destruct (IDB.add o s) as [k s1| |] eqn:Ea; [|done..].
  intros Hrun. destruct (IH _ Hrun) as (Hg & Hkeep & Hall).
  destruct (add_Stored _ _ _ _ Ea) as (Hfree & Hg1 & Hkeep1 & Hk).
  assert (forall k', IDB.records s1 !! k' = None -> IDB.records s !! k' = None)
    as Hback.
  { intros k' Hn. destruct (IDB.records s !! k') eqn:E; [|done].
    apply Hkeep1 in E. congruence. }
  split; [lia|]. split; [by auto|].
  intros o' Ho'. apply elem_of_cons in Ho' as [->|Ho'].
  - unfold storedAs. destruct (IDB.extractKey o) as [| |k0]; [|done|].
    + destruct Hk as (-> & Hg2 & Hs1). exists (IDB.keyGen s).
      split; [lia|]. split; [done|]. by apply Hkeep.
    + destruct Hk as (-> & Hs1). split; [done|]. by apply Hkeep.
  - specialize (Hall o' Ho'). unfold storedAs in *.
    destruct (IDB.extractKey o') as [| |k0]; [|done|].
    + destruct Hall as (n & Hn & Hnone & Hsome). exists n.
      split; [lia|]. split; [by apply Hback | done].
    + destruct Hall as (Hnone & Hsome). split; [by apply Hback | done].
Qed.

Variable sortAndRenderPasswords : State -> Result State.
Variable isValid : Cand -> Result bool.

(** C4, as amended.  The import hands every record that passes
    validation to the store's [add] exactly as it was parsed, its [id]
    field included.  When the transaction commits, a record that carries
    an id sits in the store under that very id, and only a record without
    an id field sits under a fresh number issued by the store's key
    generator; the cache is then reloaded from the store. *)
Theorem import_adds_records_as_parsed (fmt : Format) (l valid : list Cand)
  (f : Faults) (st : State) (s : IDB.ObjectStore) :
  filterM isValid l = Ok valid ->
  Shared.objects valid <> [] ->
  dbOpen st = true ->
  queueAdds (Shared.objects valid) = (Shared.objects valid, false) ->
  commitAdds f (Shared.objects valid) (store st) = Some s ->
  Shared.importParsed sortAndRenderPasswords isValid fmt (ParsedArray l) f st
  = Shared.loadPasswords sortAndRenderPasswords f
      (alert (msgImported (length (Shared.objects valid)))
         (withStore s
            (logCalls (map CallAdd (Shared.objects valid)) st)))
  /\ (forall o, o ∈ Shared.objects valid -> storedAs (store st) s o).
Proof.
  intros Hv Hne Hdb Hq Hc. split.
  - unfold Shared.importParsed. rewrite Hv.
    destruct (Shared.objects valid) as [|o q] eqn:E; [done|].
    simpl (0 <? _)%nat. cbv iota. rewrite Hdb. cbv iota. simpl negb. cbv iota.
    rewrite Hq. simpl store. rewrite Hc. reflexivity.
  - unfold commitAdds in Hc. destruct (writeFails f); [done|].
    by apply runAdds_spec in Hc as (_ & _ & H).
Qed.

End ImportAdds.

Section ImportExamples.
Import JsString Js App Spec.

(** Importing one row without an id into a store that holds ids 1 and 2:
    the record is stored under the generator's number 3. *)
Lemma import_adds_records_as_parsed_witness :
  let l := map CObj (Part000.parseCSV csvPadded) in
  let s := default IDB.empty
             (commitAdds noFaults (Shared.objects l) (store stByUser)) in
  filterM Part000.isValid l = Ok l
  /\ Shared.objects l <> []
  /\ commitAdds noFaults (Shared.objects l) (store stByUser) = Some s
  /\ Part000.importCSV csvPadded noFaults stByUser
     = Part000.loadPasswords noFaults
         (alert (msgImported 1)
            (withStore s (logCalls (map CallAdd (Shared.objects l)) stByUser)))
  /\ (forall o, o ∈ Shared.objects l -> storedAs (store stByUser) s o)
  /\ IDB.keyGen s = 4%Z.
Proof.
  intros l s.
  assert (filterM Part000.isValid l = Ok l) as H1 by (vm_compute; reflexivity).
  assert (Shared.objects l <> []) as H2 by (vm_compute; discriminate).
  assert (dbOpen stByUser = true) as H3 by reflexivity.
  assert (queueAdds (Shared.objects l) = (Shared.objects l, false)) as H4
    by (vm_compute; reflexivity).
  assert (commitAdds noFaults (Shared.objects l) (store stByUser) = Some s) as H5
    by (vm_compute; reflexivity).
  destruct (import_adds_records_as_parsed Part000.sortAndRenderPasswords
              Part000.isValid FCsv l l noFaults stByUser s H1 H2 H3 H4 H5)
    as [Himp Hstored].
  split; [exact H1|]. split; [exact H2|]. split; [exact H5|].
  split; [exact Himp|]. split; [exact Hstored|].
  vm_compute. reflexivity.
Defined.

(** C4 as stated fails: a delimited text with an [id] column is stored
    under the id it carries.  After the import of one row with id 42 into
    the empty store, the record sits under the key ["42"] taken from the
    file, and the key generator, still at 1, has issued nothing. *)
Lemma import_keeps_source_id_counterexample :
  Part000.parseCSV csvWithId = [recWithId]
  /\ get recWithId "id" = VStr "42"
  /\ exists st',
       Part000.importCSV csvWithId noFaults st0 = Ok st'
       /\ storeCalls st' = [CallAdd recWithId; CallGetAll]
       /\ IDB.records (store st') = {[ IDB.KStr "42" := recWithId ]}
       /\ IDB.keyGen (store st') = 1%Z
       /\ alerts st' = ["1 passwords imported successfully."].
Proof.
  split; [vm_compute; reflexivity|].
  split; [vm_compute; reflexivity|].
  eexists.
  split; [vm_compute; reflexivity|].
  repeat split; vm_compute; reflexivity.
Qed.

(** The same happens in [src/script.js]. *)
Lemma ScriptJs_import_keeps_source_id :
  exists st',
    ScriptJs.importCSV csvWithId noFaults st0 = Ok st'
    /\ IDB.records (store st') = {[ IDB.KStr "42" := recWithId ]}.
Proof.
  eexists. split; vm_compute; reflexivity.
Qed.

(** A record whose id is already in the store makes its [add] fail; the
    transaction aborts, the import reports an error and the store is as
    before. *)
Lemma import_taken_id_aborts :
  let l := [CObj (mkEntry 1 "a.com" "alice" "p1")] in
  Part000.importParsed FJson (ParsedArray l) noFaults stByUser
  = Ok (alert msgImportFailed
          (logCalls [CallAdd (mkEntry 1 "a.com" "alice" "p1")] stByUser)).
Proof. vm_compute. reflexivity. Qed.

End ImportExamples.

(* ===================================================================== *)
(** * Properties of the delimited-text parsers *)
(* ===================================================================== *)

Section ParserProperties.
Import JsString Js Csv App Spec.


(** The parser of [src/script.js] splits the same data line at every
    comma into four cells, one more than the header has, and drops it. *)
Lemma ScriptJs_parseCSV_p6 : ScriptJs.parseCSV Part000.p6_input = [].
Proof. vm_compute. reflexivity. Qed.





(** The parser of the later revision does not trim the cells of a data
    row; only the header names are trimmed there. *)
Lemma Part000_parser_keeps_blanks :
  Part000.parseCSV csvPadded
  = [ {[ "website" := VStr "x.com"; "username" := VStr "  bob ";
         "password" := VStr " pw " ]} ].
Proof. vm_compute. reflexivity. Qed.

End ParserProperties.

(* ===================================================================== *)
(** * Further properties: the store behind the operations *)
(* ===================================================================== *)

Section StoreFacts.
Import JsString Js App Spec.

Lemma valueToKey_keyVal (v : Val) (k : IDB.Key) :
  IDB.valueToKey v = Some k -> v = IDB.keyVal k.
Proof. destruct v; simpl; intros [= <-]; reflexivity. Qed.

Lemma extractKey_ValidKey (o : Obj) (k : IDB.Key) :
  IDB.extractKey o = IDB.ValidKey k -> o !! "id" = Some (IDB.keyVal k).
Proof.
  unfold IDB.extractKey. destruct (o !! "id") as [v|]; [|done].
  destruct v; simpl; intros [= <-]; reflexivity.
Qed.

Lemma strictEq_keyVal (v : Val) (k : IDB.Key) :
  strictEq v (IDB.keyVal k) = true <-> v = IDB.keyVal k.
Proof.
  destruct k as [n|s], v; simpl; split; try done.
  - intros H%Z.eqb_eq. by subst.
  - intros [= ->]. apply Z.eqb_refl.
  - intros H%String.eqb_eq. by subst.
  - intros [= ->]. apply String.eqb_refl.
Qed.

(** What a successful [add] or [put] leaves in the store: the record,
    with the key as its [id], under the key. *)
Lemma storeRecord_Stored (b : bool) (o : Obj) (s s1 : IDB.ObjectStore)
  (k : IDB.Key) :
  IDB.storeRecord b o s = IDB.Stored k s1 ->
  IDB.records s1 = <[k := <["id" := IDB.keyVal k]> o]> (IDB.records s)
  /\ (b = true -> IDB.records s !! k = None)
  /\ (IDB.keyGen s <= IDB.keyGen s1)%Z
  /\ (IDB.extractKey o = IDB.NoKey -> k = IDB.KNum (IDB.keyGen s))
  /\ (forall k0, IDB.extractKey o = IDB.ValidKey k0 -> k = k0).
Proof.
  unfold IDB.storeRecord.
  destruct (IDB.extractKey o) as [| |k0] eqn:Ek; [|done|].
  - destruct (IDB.maxGenerated <? IDB.keyGen s)%Z; [done|].
    destruct (b && bool_decide _) eqn:Eb; [done|]. intros [= <- <-]. simpl.
    split; [done|]. split.
    { intros ->. simpl in Eb. apply bool_decide_eq_false in Eb.
      destruct (IDB.records s !! IDB.KNum (IDB.keyGen s)) eqn:E; [|done].
      destruct Eb. by eexists. }
    split; [lia|]. split; [done|]. intros k0 [=].
  - destruct (b && bool_decide _) eqn:Eb; [done|]. intros [= <- <-]. simpl.
    split.
    { f_equal. symmetry. apply insert_id. by apply extractKey_ValidKey. }
    split.
    { intros ->. simpl in Eb. apply bool_decide_eq_false in Eb.
      destruct (IDB.records s !! k0) eqn:E; [|done]. destruct Eb. by eexists. }
    split.
    { destruct k0 as [n|]; [|lia].
      destruct (IDB.keyGen s <=? Z.min n IDB.maxGenerated)%Z eqn:E; lia. }
    split; [intros [=] | by intros ? [= ->]].
Qed.

Lemma storeRecord_keyed (b : bool) (o : Obj) (s s1 : IDB.ObjectStore)
  (k : IDB.Key) :
  keyed s -> IDB.storeRecord b o s = IDB.Stored k s1 -> keyed s1.
Proof.
  intros Hk Hs. apply storeRecord_Stored in Hs as (Hr & _).
  intros k' o'. rewrite Hr. destruct (decide (k = k')) as [<-|Hne].
  - rewrite lookup_insert_eq. intros [= <-]. apply lookup_insert_eq.
  - rewrite lookup_insert_ne by done. apply Hk.
Qed.

Lemma deleteRecord_keyed (k : IDB.Key) (s : IDB.ObjectStore) :
  keyed s -> keyed (IDB.deleteRecord k s).
Proof.
  intros Hk k' o'. simpl. destruct (decide (k = k')) as [<-|Hne].
  - by rewrite lookup_delete_eq.
  - rewrite lookup_delete_ne by done. apply Hk.
Qed.

Lemma getAll_perm (s : IDB.ObjectStore) :
  IDB.getAll s ≡ₚ (map_to_list (IDB.records s)).*2.
Proof.
  unfold IDB.getAll. apply fmap_Permutation, merge_sort_Permutation.
Qed.

(** The generator can issue its number: [add] of a record without an id
    succeeds with that number. *)
Lemma add_generates (o : Obj) (s : IDB.ObjectStore) :
  IDB.extractKey o = IDB.NoKey -> canGenerate s ->
  IDB.add o s
  = IDB.Stored (IDB.KNum (IDB.keyGen s))
      {| IDB.records := <[IDB.KNum (IDB.keyGen s)
                          := <["id" := VNum (IDB.keyGen s)]> o]> (IDB.records s);
         IDB.keyGen := IDB.keyGen s + 1 |}.
Proof.
  intros Hk [Hmax Hfree]. unfold IDB.add, IDB.storeRecord. rewrite Hk.
  destruct (Z.ltb_spec IDB.maxGenerated (IDB.keyGen s)); [lia|].
  by rewrite Hfree.
Qed.

End StoreFacts.

Section ListFacts.
Context {A : Type}.

Lemma findIndex_Some (p : A -> bool) (l : list A) (i : nat) :
  findIndex p l = Some i ->
  exists x, l !! i = Some x /\ p x = true
            /\ Forall (fun y => p y = false) (take i l).
Proof.
  revert i. induction l as [|y l IH]; simpl; intros i; [done|].
  destruct (p y) eqn:Ey.
  - intros [= <-]. exists y. repeat split; [done|constructor].
  - destruct (findIndex p l) as [j|]; simpl; [|done]. intros [= <-].
    destruct (IH j eq_refl) as (x & Hx & Hp & Hall).
    exists x. repeat split; [done..|]. simpl. by constructor.
Qed.

Lemma findIndex_None (p : A -> bool) (l : list A) :
  findIndex p l = None <-> Forall (fun y => p y = false) l.
Proof.
  induction l as [|y l IH]; simpl; [split; [constructor|done]|].
  destruct (p y) eqn:Ey.
  - split; [done|]. intros H. inv H. congruence.
  - destruct (findIndex p l) as [j|]; simpl.
    + split; [done|]. intros H. inv H.
      assert (Some j = None) as [=] by (by apply IH).
    + split; [|done]. intros _. constructor; [done|]. by apply IH.
Qed.

Lemma find_findIndex (p : A -> bool) (l : list A) (x : A) :
  List.find p l = Some x ->
  exists i, findIndex p l = Some i /\ l !! i = Some x /\ p x = true.
Proof.
  induction l as [|y l IH]; simpl; [done|].
  destruct (p y) eqn:Ey.
  - intros [= <-]. by exists 0%nat.
  - intros H. destruct (IH H) as (i & -> & Hi & Hp). by exists (S i).
Qed.

Lemma find_None_findIndex (p : A -> bool) (l : list A) :
  List.find p l = None -> findIndex p l = None.
Proof.
  induction l as [|y l IH]; simpl; [done|].
  destruct (p y); [done|]. intros H. by rewrite IH.
Qed.

Lemma Forall_sublist (P : A -> Prop) (l1 l2 : list A) :
  sublist l1 l2 -> Forall P l2 -> Forall P l1.
Proof.
  induction 1 as [|x l1 l2 _ IH|x l1 l2 _ IH]; intros H; [done| |].
  - inv H. constructor; auto.
  - inv H. auto.
Qed.

Lemma StronglySorted_sublist (R : relation A) (l1 l2 : list A) :
  sublist l1 l2 -> StronglySorted R l2 -> StronglySorted R l1.
Proof.
  induction 1 as [|x l1 l2 Hs IH|x l1 l2 Hs IH]; intros H; [done| |].
  - inv H. constructor; [auto|]. by eapply Forall_sublist.
  - inv H. auto.
Qed.

End ListFacts.

Section Consistency.
Import JsString Js App Spec.

Lemma strictEq_eq (a b : Val) : strictEq a b = true -> a = b.
Proof.
  destruct a, b; simpl; try done.
  - intros H. f_equal. by apply Bool.eqb_prop.
  - intros H%Z.eqb_eq. by subst.
  - intros H%String.eqb_eq. by subst.
Qed.

Lemma keyVal_inj (k1 k2 : IDB.Key) : IDB.keyVal k1 = IDB.keyVal k2 -> k1 = k2.
Proof. destruct k1, k2; simpl; congruence. Qed.

Lemma get_Some (o : Obj) (k : string) (v : Val) : o !! k = Some v -> get o k = v.
Proof. unfold get. by intros ->. Qed.

Lemma Sorted_sublist_inSortOrder col dir (l1 l2 : list Obj) :
  sublist l1 l2 ->
  Sorted (precedes (keyOf col) dir) l2 -> Sorted (precedes (keyOf col) dir) l1.
Proof.
  intros Hs H. apply StronglySorted_Sorted.
  eapply StronglySorted_sublist; [exact Hs|].
  apply Sorted_StronglySorted; [apply precedes_trans | exact H].
Qed.

(** In a consistent state the cache entries with a given id are the one
    record the store holds under that key. *)
Lemma consistent_entry (st : State) (p : Obj) (k : IDB.Key) :
  consistent st -> p ∈ currentPasswords st -> get p "id" = IDB.keyVal k ->
  IDB.records (store st) !! k = Some p.
Proof.
  intros [Hk Hm] Hp Hid. unfold mirrors in Hm. rewrite Hm in Hp.
  apply list_elem_of_fmap in Hp as ([k' p'] & -> & Hin). simpl in *.
  apply elem_of_map_to_list in Hin. pose proof (Hk _ _ Hin) as Hid'.
  apply get_Some in Hid'. rewrite Hid in Hid'. apply keyVal_inj in Hid'.
  by subst.
Qed.

Lemma consistent_absent (st : State) (k : IDB.Key) :
  consistent st -> absentFrom (IDB.keyVal k) (currentPasswords st) ->
  IDB.records (store st) !! k = None.
Proof.
  intros [Hk Hm] Habs.
  destruct (IDB.records (store st) !! k) as [o|] eqn:E; [|done].
  assert (o ∈ currentPasswords st) as Ho.
  { unfold mirrors in Hm. rewrite Hm. apply list_elem_of_fmap. exists (k, o). split; [done|].
    by apply elem_of_map_to_list. }
  unfold absentFrom in Habs. rewrite Forall_forall in Habs.
  specialize (Habs o Ho). rewrite (get_Some _ _ _ (Hk _ _ E)) in Habs.
  assert (strictEq (IDB.keyVal k) (IDB.keyVal k) = true) as Ht
      by (by apply strictEq_keyVal).
  congruence.
Qed.

Lemma empty_consistent : consistent st0.
Proof.
  split.
  - intros k o. simpl. by rewrite lookup_empty.
  - unfold mirrors. simpl. by rewrite map_to_list_empty.
Qed.

Lemma byUser_consistent : consistent stByUser.
Proof.
  assert (IDB.records (store stByUser)
          = list_to_map [(IDB.KNum 1, mkEntry 1 "a.com" "alice" "p1");
                         (IDB.KNum 2, mkEntry 2 "b.com" "bob" "p2")]) as E
      by reflexivity.
  split.
  - intros k o. rewrite E. intros H%elem_of_list_to_map_2.
    apply elem_of_cons in H as [[= -> ->]|H]; [reflexivity|].
    apply elem_of_cons in H as [[= -> ->]|H]; [reflexivity|].
    by apply elem_of_nil in H.
  - unfold mirrors. rewrite E, map_to_list_to_map; [reflexivity|].
    simpl. compute_done.
Qed.

End Consistency.

(* ===================================================================== *)
(** * Further properties: load, add, delete, edit, clear *)
(* ===================================================================== *)

Section CrudProperties.
Import JsString Js App Spec.

Lemma load_ok (f : Faults) (st : State) :
  dbOpen st = true -> readFails f = false ->
  exists st',
    Part000.loadPasswords f st = Ok st'
    /\ store st' = store st
    /\ mirrors st'
    /\ inSortOrder st'
    /\ rendered st' = currentPasswords st'
    /\ alerts st' = alerts st.
Proof.
  intros Hdb Hr. unfold Part000.loadPasswords, Shared.loadPasswords.
  rewrite Hdb. simpl. rewrite Hr, Part000_sort.
  eexists. split; [reflexivity|]. simpl.
  split; [reflexivity|]. split.
  { unfold mirrors. simpl. rewrite sortBy_perm. apply getAll_perm. }
  split; [apply sortBy_Sorted|]. split; reflexivity.
Qed.

(** X1.  A load that succeeds replaces the cache by the records of the
    store, sorted by the current column and direction, and renders it;
    the store is not touched. *)
Theorem loadPasswords_resynchronises (f : Faults) (st : State) :
  dbOpen st = true -> readFails f = false ->
  exists st',
    Part000.loadPasswords f st = Ok st'
    /\ store st' = store st
    /\ mirrors st'
    /\ inSortOrder st'
    /\ rendered st' = currentPasswords st'
    /\ alerts st' = alerts st.
Proof. exact (load_ok f st). Qed.

Lemma add_ok (entry : Obj) (f : Faults) (st : State)
  (k : IDB.Key) (s : IDB.ObjectStore) :
  dbOpen st = true -> writeFails f = false ->
  IDB.add entry (store st) = IDB.Stored k s ->
  exists st',
    Part000.addPassword entry f st = Ok st'
    /\ store st' = s
    /\ currentPasswords st'
       ≡ₚ <["id" := IDB.keyVal k]> entry :: currentPasswords st
    /\ length (currentPasswords st') = S (length (currentPasswords st))
    /\ IDB.records (store st) !! k = None
    /\ IDB.records s !! k = Some (<["id" := IDB.keyVal k]> entry)
    /\ inSortOrder st'
    /\ rendered st' = currentPasswords st'
    /\ (consistent st -> consistent st').
Proof.
  intros Hdb Hw Hadd. unfold Part000.addPassword.
  rewrite Hdb, Hadd, Hw. simpl. rewrite Part000_sort.
  eexists. split; [reflexivity|]. simpl.
  destruct (storeRecord_Stored _ _ _ _ _ Hadd) as (Hrec & Hfree & _).
  specialize (Hfree eq_refl).
  assert (sortBy (cmpKey (keyOf (sortColumn st)) (sortDirection st))
            (currentPasswords st ++ [<["id" := IDB.keyVal k]> entry])
          ≡ₚ <["id" := IDB.keyVal k]> entry :: currentPasswords st) as Hperm.
  { rewrite sortBy_perm. by rewrite Permutation_app_comm. }
  split; [reflexivity|]. split; [exact Hperm|].
  split; [by rewrite Hperm|]. split; [exact Hfree|].
  split; [by rewrite Hrec, lookup_insert_eq|].
  split; [apply sortBy_Sorted|]. split; [reflexivity|].
  intros [Hk Hm]. split; simpl.
  - by eapply storeRecord_keyed.
  - unfold mirrors in *. simpl. rewrite Hperm, Hrec.
    rewrite map_to_list_insert by exact Hfree. simpl. by rewrite Hm.
Qed.

(** X2.  When the store accepts an [add], the cache grows by exactly the
    one entry, which carries the key the store reported as its id and is
    the record the store holds under that key; the cache is left sorted
    and rendered, and cache and store stay in step. *)
Theorem addPassword_appends (entry : Obj) (f : Faults) (st : State)
  (k : IDB.Key) (s : IDB.ObjectStore) :
  dbOpen st = true -> writeFails f = false ->
  IDB.add entry (store st) = IDB.Stored k s ->
  exists st',
    Part000.addPassword entry f st = Ok st'
    /\ store st' = s
    /\ currentPasswords st'
       ≡ₚ <["id" := IDB.keyVal k]> entry :: currentPasswords st
    /\ length (currentPasswords st') = S (length (currentPasswords st))
    /\ IDB.records (store st) !! k = None
    /\ IDB.records s !! k = Some (<["id" := IDB.keyVal k]> entry)
    /\ inSortOrder st'
    /\ rendered st' = currentPasswords st'
    /\ (consistent st -> consistent st').
Proof. exact (add_ok entry f st k s). Qed.

(** X3.  The Save listener turns down a form in which the website or the
    user name is blank after trimming, or the password is empty: it
    alerts and leaves store, cache and table alone. *)
Theorem saveClick_rejects_blank (websiteInput usernameInput passwordInput : string)
  (now : Val) (f : Faults) (st : State) :
  dbOpen st = true ->
  trim websiteInput = "" \/ trim usernameInput = "" \/ passwordInput = "" ->
  Part000.saveClick websiteInput usernameInput passwordInput now f st
  = Ok (alert msgFillAll st)
  /\ ScriptJs.saveClick websiteInput usernameInput passwordInput now f st
     = Ok (alert msgFillAll st).
Proof.
  intros Hdb H. unfold Part000.saveClick, ScriptJs.saveClick.
  rewrite Hdb. simpl.
  destruct H as [-> | [-> | ->]]; simpl; rewrite ?andb_false_r; done.
Qed.

(** X4.  A form with a website and a user name that are not blank and a
    password that is not empty is saved under the next number of the key
    generator: website and user name trimmed, the password as typed. *)
Theorem saveClick_stores_trimmed (websiteInput usernameInput passwordInput : string)
  (now : Val) (f : Faults) (st : State) :
  dbOpen st = true -> writeFails f = false ->
  trim websiteInput <> "" -> trim usernameInput <> "" -> passwordInput <> "" ->
  canGenerate (store st) ->
  let e : Obj :=
    {[ "id" := VNum (IDB.keyGen (store st));
       "website" := VStr (trim websiteInput);
       "username" := VStr (trim usernameInput);
       "password" := VStr passwordInput;
       "createdAt" := now ]} in
  exists st',
    Part000.saveClick websiteInput usernameInput passwordInput now f st = Ok st'
    /\ e ∈ currentPasswords st'
    /\ length (currentPasswords st') = S (length (currentPasswords st))
    /\ IDB.records (store st') !! IDB.KNum (IDB.keyGen (store st)) = Some e
    /\ IDB.keyGen (store st') = (IDB.keyGen (store st) + 1)%Z.
Proof.
  intros Hdb Hw Hweb Huser Hpw Hgen e.
  set (entry := ({[ "website" := VStr (trim websiteInput);
                    "username" := VStr (trim usernameInput);
                    "password" := VStr passwordInput;
                    "createdAt" := now ]} : Obj)).
  assert (IDB.extractKey entry = IDB.NoKey) as Hnokey.
  { unfold IDB.extractKey, entry.
    rewrite !lookup_insert_ne by done. by rewrite lookup_singleton_ne. }
  pose proof (add_generates entry (store st) Hnokey Hgen) as Hadd.
  destruct (add_ok entry f st _ _ Hdb Hw Hadd)
    as (st' & Hst' & Hstore & Hperm & Hlen & _ & Hrec & _).
  exists st'. split.
  { unfold Part000.saveClick. rewrite Hdb. simpl.
    apply String.eqb_neq in Hweb, Huser, Hpw. rewrite Hweb, Huser, Hpw. simpl.
    exact Hst'. }
  split; [rewrite Hperm; by left|]. split; [exact Hlen|].
  rewrite Hstore. split; [exact Hrec | reflexivity].
Qed.

End CrudProperties.

Section DeleteEditProperties.
Import JsString Js App Spec.

(** The state [deletePassword] has reached when it makes its request. *)
Lemma Part000_delete_eq (id : Val) (f : Faults) (st : State) (k : IDB.Key) :
  dbOpen st = true -> writeFails f = false -> IDB.valueToKey id = Some k ->
  exists rows,
    Part000.deletePassword id f st
    = Ok (withStore (IDB.deleteRecord k (store st))
            (withRows rows
               (withCache
                  (match findIndex (fun p => strictEq (get p "id") id)
                                   (currentPasswords st) with
                   | Some i => delete i (currentPasswords st)
                   | None => currentPasswords st
                   end) st)))
    /\ (findIndex (fun p => strictEq (get p "id") id) (currentPasswords st)
        = None -> rows = rendered st).
Proof.
  intros Hdb Hw Hk. unfold Part000.deletePassword. rewrite Hdb, Hk, Hw. simpl.
  destruct (findIndex _ (currentPasswords st)) as [i|].
  - destruct (removeRow id (rendered st)) as [rows|].
    + exists rows. split; [reflexivity | done].
    + exists (rendered st). split; [reflexivity | done].
  - exists (rendered st). split; [reflexivity | done].
Qed.

(** X5.  A delete that the store carries out removes at most one entry
    from the cache, the first with the given id, and keeps the others in
    their order; for an id that no cache entry has the cache and the
    table stay as they are and nothing is reported; the store holds no
    record under the key afterwards; a sorted cache stays sorted; and
    cache and store stay in step. *)
Theorem deletePassword_effects (id : Val) (f : Faults) (st : State)
  (k : IDB.Key) :
  dbOpen st = true -> writeFails f = false -> IDB.valueToKey id = Some k ->
  exists st',
    Part000.deletePassword id f st = Ok st'
    /\ sublist (currentPasswords st') (currentPasswords st)
    /\ (absentFrom id (currentPasswords st) ->
        currentPasswords st' = currentPasswords st
        /\ rendered st' = rendered st)
    /\ (~ absentFrom id (currentPasswords st) ->
        length (currentPasswords st) = S (length (currentPasswords st')))
    /\ IDB.records (store st') !! k = None
    /\ alerts st' = alerts st
    /\ (inSortOrder st -> inSortOrder st')
    /\ (consistent st -> consistent st').
Proof.
  intros Hdb Hw Hk.
  destruct (Part000_delete_eq id f st k Hdb Hw Hk) as (rows & -> & Hrows).
  eexists. split; [reflexivity|]. simpl.
  pose proof (valueToKey_keyVal _ _ Hk) as Hid.
  destruct (findIndex _ (currentPasswords st)) as [i|] eqn:Ei.
  - destruct (findIndex_Some _ _ _ Ei) as (p & Hp & Hpid & _).
    split; [apply sublist_delete|]. split.
    { intros Habs. apply findIndex_None in Habs. congruence. }
    split.
    { intros _. rewrite length_delete by (by eexists). 
      apply lookup_lt_Some in Hp. lia. }
    split; [apply lookup_delete_eq|]. split; [reflexivity|]. split.
    { unfold inSortOrder. simpl. apply Sorted_sublist_inSortOrder, sublist_delete. }
    intros Hc. pose proof Hc as [Hkeyed Hm].
    assert (IDB.records (store st) !! k = Some p) as Hrec.
    { apply (consistent_entry st); [done| |].
      - by eapply list_elem_of_lookup_2.
      - apply strictEq_eq in Hpid. congruence. }
    split; simpl; [by apply deleteRecord_keyed|].
    unfold mirrors in *. simpl.
    apply (Permutation_cons_inv (a:=p)).
    rewrite <- (delete_Permutation _ _ _ Hp), Hm.
    rewrite <- (map_to_list_delete _ _ _ Hrec). reflexivity.
  - split; [reflexivity|]. split; [intros _; by rewrite Hrows|]. split.
    { intros Habs. destruct Habs. by apply findIndex_None. }
    split; [apply lookup_delete_eq|]. split; [reflexivity|].
    split; [done|].
    intros Hc. pose proof Hc as [Hkeyed Hm].
    assert (IDB.records (store st) !! k = None) as Hrec.
    { apply (consistent_absent st); [done|]. rewrite <- Hid.
      by apply findIndex_None. }
    split; simpl; [by apply deleteRecord_keyed|].
    unfold mirrors in *. simpl. by rewrite delete_id.
Qed.

(** X6.  When the store fails a delete, the user is told and the cache
    is reloaded from the store, which still holds every record: the
    optimistic removal is undone. *)
Theorem deletePassword_failure_resyncs (id : Val) (f : Faults) (st : State)
  (k : IDB.Key) :
  dbOpen st = true -> writeFails f = true -> readFails f = false ->
  IDB.valueToKey id = Some k ->
  exists st',
    Part000.deletePassword id f st = Ok st'
    /\ store st' = store st
    /\ alerts st' = alerts st ++ [msgDeleteFailed]
    /\ mirrors st'
    /\ inSortOrder st'
    /\ rendered st' = currentPasswords st'
    /\ (mirrors st -> currentPasswords st' ≡ₚ currentPasswords st).
Proof.
  intros Hdb Hw Hr Hk. unfold Part000.deletePassword. rewrite Hdb, Hk, Hw. simpl.
  match goal with
  | |- context [Part000.loadPasswords f ?x] =>
      destruct (load_ok f x) as (st' & E & Hs & Hm & Hso & Hre & Ha);
        [ | exact Hr | ]
  end.
  { destruct (findIndex _ _); [destruct (removeRow _ _)|]; exact Hdb. }
  exists st'. split; [exact E|].
  assert (store st' = store st) as Hstore.
  { rewrite Hs. destruct (findIndex _ _); [destruct (removeRow _ _)|]; reflexivity. }
  split; [exact Hstore|]. split.
  { rewrite Ha. destruct (findIndex _ _); [destruct (removeRow _ _)|]; reflexivity. }
  split; [exact Hm|]. split; [exact Hso|]. split; [exact Hre|].
  intros Hm0. unfold mirrors in *. by rewrite Hm, Hstore, Hm0.
Qed.

(** X7.  The table's listeners pass [parseInt] of the row's [data-id], a
    number or [NaN].  Entries whose id is a text, as an import from a
    delimited text with an [id] column stores them, are out of their
    reach: a delete leaves every such entry in the cache, and when the
    cache holds no other entries an edit reports that the entry was not
    found. *)
Theorem text_ids_out_of_reach (id : Val) (usernameInput passwordInput : string)
  (f : Faults) (st : State) (k : IDB.Key) :
  (forall s, id <> VStr s) ->
  dbOpen st = true -> writeFails f = false -> IDB.valueToKey id = Some k ->
  exists st',
    Part000.deletePassword id f st = Ok st'
    /\ (forall e, e ∈ currentPasswords st -> hasTextId e ->
                  e ∈ currentPasswords st')
    /\ (Forall hasTextId (currentPasswords st) ->
        currentPasswords st' = currentPasswords st
        /\ Part000.editSave id usernameInput passwordInput f st
           = Ok (alert msgIdNotFound st)).
Proof.
  intros Hid Hdb Hw Hk.
  assert (forall e, hasTextId e -> strictEq (get e "id") id = false) as Hno.
  { intros e [s ->]. destruct id; try done. by destruct (Hid s0). }
  destruct (Part000_delete_eq id f st k Hdb Hw Hk) as (rows & -> & Hrows).
  eexists. split; [reflexivity|]. simpl. split.
  - intros e He Ht.
    destruct (findIndex _ (currentPasswords st)) as [i|] eqn:Ei; [|done].
    destruct (findIndex_Some _ _ _ Ei) as (p & Hp & Hpid & _).
    rewrite (delete_Permutation _ _ _ Hp) in He.
    apply elem_of_cons in He as [->|He]; [|done].
    rewrite (Hno _ Ht) in Hpid. done.
  - intros Hall.
    assert (absentFrom id (currentPasswords st)) as Habs.
    { unfold absentFrom. eapply Forall_impl; [exact Hall|]. exact Hno. }
    split.
    + by rewrite (proj2 (findIndex_None _ _) Habs).
    + unfold Part000.editSave, Shared.editSave.
      by rewrite (absentFrom_find _ _ Habs).
Qed.

(** The row update goes through for an entry that has a password, and
    touches nothing but the rows. *)
Lemma updateTableRow_ok (entry : Obj) (st : State) :
  hasPassword entry ->
  exists rows, Shared.updateTableRow entry st = Ok (withRows rows st).
Proof.
  intros Hp. unfold Shared.updateTableRow.
  destruct (findIndex _ (rendered st)) as [i|].
  - destruct (maskedPassword_ok _ Hp) as [m ->]. eexists. reflexivity.
  - exists (rendered st). by destruct st.
Qed.

Lemma rowShown_findIndex (id : Val) (st : State) :
  rowShown id st ->
  exists i,
    findIndex (fun e => String.eqb (toString (get e "id")) (toString id))
              (rendered st) = Some i.
Proof.
  unfold rowShown. intros H.
  destruct (findIndex _ (rendered st)) as [i|] eqn:E; [by exists i|].
  apply findIndex_None in E. rewrite Exists_exists in H.
  destruct H as (row & Hin & Hrow). rewrite Forall_forall in E.
  specialize (E row Hin). simpl in E. rewrite Hrow, String.eqb_refl in E. done.
Qed.

(** X8.  With cache and store in step, a save from the edit dialog that
    the store carries out leaves them in step, whatever was typed; the
    cache keeps its length, and at every position the entry keeps its id
    and its website. *)
Theorem editSave_in_place (id : Val) (usernameInput passwordInput : string)
  (f : Faults) (st : State) :
  consistent st -> writeFails f = false ->
  exists st',
    Part000.editSave id usernameInput passwordInput f st = Ok st'
    /\ consistent st'
    /\ length (currentPasswords st') = length (currentPasswords st)
    /\ (fun e => get e "id") <$> currentPasswords st'
       = (fun e => get e "id") <$> currentPasswords st
    /\ (fun e => get e "website") <$> currentPasswords st'
       = (fun e => get e "website") <$> currentPasswords st.
Proof.
  intros Hc Hw. unfold Part000.editSave, Shared.editSave.
  destruct (List.find _ (currentPasswords st)) as [p|] eqn:Ef;
    [|eexists; split; [reflexivity|]; repeat split; apply Hc].
  destruct (strictEq _ _ && strictEq _ _);
    [eexists; split; [reflexivity|]; repeat split; apply Hc|].
  destruct (truthy _ && truthy _);
    [|eexists; split; [reflexivity|]; repeat split; apply Hc].
  destruct (find_findIndex _ _ _ Ef) as (i & Hi & Hp & Hpid).
  apply strictEq_eq in Hpid.
  set (u := <["password" := VStr passwordInput]>
              (<["username" := VStr (trim usernameInput)]> p)).
  assert (get u "id" = id) as Huid.
  { unfold u, get. rewrite !lookup_insert_ne by done. exact Hpid. }
  assert (get u "website" = get p "website") as Huw.
  { unfold u, get. by rewrite !lookup_insert_ne. }
  assert (hasPassword u) as Hup.
  { unfold hasPassword, u, get. by rewrite lookup_insert_eq. }
  assert (p ∈ currentPasswords st) as Hin by (by eapply list_elem_of_lookup_2).
  pose proof Hc as [Hkeyed Hm].
  assert (exists k, IDB.records (store st) !! k = Some p /\ id = IDB.keyVal k)
    as (k & Hrec & Hidk).
  { unfold mirrors in Hm. pose proof Hin as Hin'. rewrite Hm in Hin'.
    apply list_elem_of_fmap in Hin' as ([k p'] & -> & Hin'). simpl in *.
    apply elem_of_map_to_list in Hin'. exists k. split; [done|].
    rewrite <- Hpid. by apply get_Some, Hkeyed. }
  assert (IDB.extractKey u = IDB.ValidKey k) as Hkey.
  { unfold IDB.extractKey, u. rewrite !lookup_insert_ne by done.
    rewrite (Hkeyed _ _ Hrec). by destruct k. }
  unfold Shared.updatePassword.
  destruct (dbOpen st) eqn:Hdb; simpl negb; cbv iota;
    [|eexists; split; [reflexivity|]; repeat split; apply Hc].
  rewrite Huid, Hi.
  destruct (updateTableRow_ok u (withCache (<[i:=u]> (currentPasswords st)) st)
              Hup) as [rows ->].
  rewrite Result_bind_Ok.
  assert (exists s, IDB.put u (store st) = IDB.Stored k s) as (s & Hput).
  { unfold IDB.put, IDB.storeRecord. rewrite Hkey. simpl. by eexists. }
  simpl store. rewrite Hput, Hw. eexists. split; [reflexivity|]. simpl.
  destruct (storeRecord_Stored _ _ _ _ _ Hput) as (Hrecs & _).
  rewrite (insert_id u "id") in Hrecs by (by apply extractKey_ValidKey).
  split.
  { split; simpl.
    - by eapply storeRecord_keyed.
    - unfold mirrors in *. simpl. rewrite Hrecs.
      assert (i < length (currentPasswords st))%nat as Hlt
          by (by eapply lookup_lt_Some).
      rewrite (delete_Permutation (<[i:=u]> (currentPasswords st)) i u)
        by (by apply list_lookup_insert_eq).
      rewrite <- insert_delete_eq.
      rewrite map_to_list_insert by apply lookup_delete_eq. simpl.
      f_equiv.
      apply (Permutation_cons_inv (a:=p)).
      replace (delete i (<[i:=u]> (currentPasswords st)))
        with (delete i (currentPasswords st)).
      2:{ rewrite !delete_take_drop, take_insert_ge, drop_insert_lt by lia.
          reflexivity. }
      rewrite <- (delete_Permutation _ _ _ Hp), Hm.
      rewrite <- (map_to_list_delete _ _ _ Hrec). reflexivity. }
  split; [apply length_insert|].
  split.
  - rewrite list_fmap_insert, Huid, <- Hpid. apply list_insert_id.
    by rewrite list_lookup_fmap, Hp.
  - rewrite list_fmap_insert, Huw. apply list_insert_id.
    by rewrite list_lookup_fmap, Hp.
Qed.

(** The row update reads the length of the password before the request
    is made: for an entry without a password whose id is in the cache
    and whose row is shown, [updatePassword] throws and no [put] is
    issued. *)
Lemma updatePassword_row_throws (entry : Obj) (f : Faults) (st : State) :
  dbOpen st = true ->
  ~ absentFrom (get entry "id") (currentPasswords st) ->
  rowShown (get entry "id") st ->
  ~ hasPassword entry ->
  Part000.updatePassword entry f st = Throw TypeError.
Proof.
  intros Hdb Hin Hrow Hp. unfold Part000.updatePassword, Shared.updatePassword.
  rewrite Hdb. simpl negb. cbv iota.
  destruct (findIndex _ (currentPasswords st)) as [i|] eqn:Ei.
  2:{ destruct Hin. by apply findIndex_None in Ei. }
  unfold Shared.updateTableRow.
  destruct (rowShown_findIndex _ _ Hrow) as [j Hj].
  change (rendered (withCache (<[i:=entry]> (currentPasswords st)) st))
    with (rendered st).
  rewrite Hj, (maskedPassword_throws _ Hp). reflexivity.
Qed.

(** With [alice] in the cache and in the table, an update that takes
    her password away throws in both revisions. *)
Lemma updatePassword_row_throws_example :
  Part000.updatePassword noPassword noFaults stByUser = Throw TypeError
  /\ ScriptJs.updatePassword noPassword noFaults stByUser = Throw TypeError.
Proof. split; vm_compute; reflexivity. Qed.

(** X9.  When the store fails the [put] of an update whose entry has a
    password, the user is told and the cache is reloaded from the store,
    which holds what it held: the optimistic overwrite of the cache slot
    and of the table row is undone.  (For an entry without a password
    whose row is shown the row update throws before the [put] is issued,
    lemma [updatePassword_row_throws].) *)
Theorem updatePassword_failure_resyncs (entry : Obj) (f : Faults) (st : State) :
  dbOpen st = true -> writeFails f = true -> readFails f = false ->
  IDB.extractKey entry <> IDB.InvalidKey ->
  hasPassword entry ->
  exists st',
    Part000.updatePassword entry f st = Ok st'
    /\ store st' = store st
    /\ alerts st' = alerts st ++ [msgPutFailed]
    /\ mirrors st'
    /\ inSortOrder st'
    /\ rendered st' = currentPasswords st'
    /\ (mirrors st -> currentPasswords st' ≡ₚ currentPasswords st).
Proof.
  intros Hdb Hw Hr Hk Hp. unfold Part000.updatePassword, Shared.updatePassword.
  rewrite Hdb. simpl negb. cbv iota.
  assert (exists st1,
            match findIndex (fun p => strictEq (get p "id") (get entry "id"))
                            (currentPasswords st) with
            | Some index =>
                Shared.updateTableRow entry
                  (withCache (<[index := entry]> (currentPasswords st)) st)
            | None => Ok st
            end = Ok st1
            /\ dbOpen st1 = true /\ store st1 = store st
            /\ alerts st1 = alerts st) as (st1 & -> & Hdb1 & Hs1 & Ha1).
  { destruct (findIndex _ _) as [i|].
    - destruct (updateTableRow_ok entry
                  (withCache (<[i:=entry]> (currentPasswords st)) st) Hp)
        as [rows ->].
      eexists. split; [reflexivity|]. done.
    - by exists st. }
  rewrite Result_bind_Ok.
  assert (exists out, IDB.put entry (store st1) = out
                      /\ out <> IDB.InvalidKeyError) as (out & Hout & Hne).
  { eexists. split; [reflexivity|]. unfold IDB.put, IDB.storeRecord.
    destruct (IDB.extractKey entry); [|done|].
    - destruct (_ <? _)%Z; [done|]. by destruct (_ && _).
    - by destruct (_ && _). }
  rewrite Hout.
  destruct (load_ok f
              (alert msgPutFailed (logCalls [CallPut entry] st1)))
    as (st' & E & Hs & Hm & Hso & Hre & Ha); [exact Hdb1 | exact Hr |].
  exists st'. rewrite Hw.
  assert (store st' = store st) as Hstore by (by rewrite Hs).
  split.
  { destruct out; [exact E | exact E | done]. }
  split; [exact Hstore|]. split; [by rewrite Ha; simpl; rewrite Ha1|].
  split; [exact Hm|]. split; [exact Hso|]. split; [exact Hre|].
  intros Hm0. unfold mirrors in *. by rewrite Hm, Hstore, Hm0.
Qed.

End DeleteEditProperties.

Section ClearProperties.
Import JsString Js App Spec.

(** X10.  The clear-all dialog is a gate.  A click on Confirm does
    something only while the flag raised by the Clear button is up:
    after Cancel, or without the Clear button having been clicked, it
    changes nothing, and a second click on Confirm changes nothing more.
    The store changes only when the flag was up and the request did not
    fail. *)
Theorem clear_needs_confirmation (f : Faults) (ss : Session) :
  Shared.modalConfirm f (Shared.hideClearModal ss) = Shared.hideClearModal ss
  /\ app (Shared.hideClearModal (Shared.clearAllPasswords ss)) = app ss
  /\ Shared.modalConfirm f (Shared.modalConfirm f ss) = Shared.modalConfirm f ss
  /\ (store (app (Shared.modalConfirm f ss)) <> store (app ss) ->
      isAwaitingConfirmation ss = true /\ writeFails f = false)
  /\ (currentPasswords (app (Shared.modalConfirm f ss))
      <> currentPasswords (app ss) ->
      isAwaitingConfirmation ss = true /\ writeFails f = false).
Proof.
  unfold Shared.modalConfirm, Shared.clearAllPasswords, Shared.hideClearModal,
    Shared.executeClearAll.
  split; [reflexivity|]. split.
  { by destruct (dbOpen (app ss)). }
  split.
  { destruct (isAwaitingConfirmation ss) eqn:E; simpl; rewrite ?E; reflexivity. }
  split.
  - destruct (isAwaitingConfirmation ss); simpl; [|intros H; by destruct H].
    destruct (dbOpen (app ss)); simpl; [|intros H; by destruct H].
    destruct (writeFails f); simpl; [intros H; by destruct H | done].
  - destruct (isAwaitingConfirmation ss); simpl; [|intros H; by destruct H].
    destruct (dbOpen (app ss)); simpl; [|intros H; by destruct H].
    destruct (writeFails f); simpl; [intros H; by destruct H | done].
Qed.

(** X11.  Clear followed by Confirm, when the store carries the request
    out, empties the store and the cache, renders the empty list, tells
    the user and lowers the flag; the key generator keeps its number, so
    no id issued before is issued again. *)
Theorem clear_confirmed (f : Faults) (ss : Session) :
  dbOpen (app ss) = true -> writeFails f = false ->
  let ss' := Shared.modalConfirm f (Shared.clearAllPasswords ss) in
  currentPasswords (app ss') = []
  /\ IDB.records (store (app ss')) = ∅
  /\ IDB.keyGen (store (app ss')) = IDB.keyGen (store (app ss))
  /\ rendered (app ss') = []
  /\ alerts (app ss') = alerts (app ss) ++ [msgCleared]
  /\ isAwaitingConfirmation ss' = false
  /\ consistent (app ss').
Proof.
  intros Hdb Hw.
  unfold Shared.modalConfirm, Shared.clearAllPasswords, Shared.hideClearModal,
    Shared.executeClearAll.
  rewrite Hdb. simpl. rewrite Hdb, Hw. simpl.
  repeat split.
  - intros k o. simpl. by rewrite lookup_empty.
  - unfold mirrors. simpl. by rewrite map_to_list_empty.
Qed.

End ClearProperties.

Section ToggleProperties.
Import JsString Js App Spec.

Lemma includesChar_stars (n : nat) :
  includesChar (stars n) STAR = match n with O => false | S _ => true end.
Proof. destruct n; reflexivity. Qed.

Lemma length_nonempty (s : string) :
  s <> "" -> exists n, String.length s = S n.
Proof. destruct s; [done|]. intros _. by eexists. Qed.

(** X12.  A click on a masked password shows it in red.  A second click
    masks it again if the password has no asterisk in it; a password
    that contains an asterisk stays shown, since the text on display is
    taken for a mask. *)
Theorem toggle_twice (pw : string) :
  pw <> "" ->
  Part000.togglePasswordVisibility (maskedSpan pw) (VStr pw)
  = mkSpan pw "red"
  /\ ScriptJs.togglePasswordVisibility (maskedSpan pw) (VStr pw)
     = Ok (mkSpan pw "red")
  /\ (includesChar pw STAR = false ->
      Part000.togglePasswordVisibility (mkSpan pw "red") (VStr pw)
      = maskedSpan pw
      /\ ScriptJs.togglePasswordVisibility (mkSpan pw "red") (VStr pw)
         = Ok (maskedSpan pw))
  /\ (includesChar pw STAR = true ->
      Part000.togglePasswordVisibility (mkSpan pw "red") (VStr pw)
      = mkSpan pw "red"
      /\ ScriptJs.togglePasswordVisibility (mkSpan pw "red") (VStr pw)
         = Ok (mkSpan pw "red")).
Proof.
  intros Hne. destruct (length_nonempty pw Hne) as [n Hn].
  unfold Part000.togglePasswordVisibility, ScriptJs.togglePasswordVisibility,
    maskedSpan. simpl. rewrite Hn. simpl.
  split; [reflexivity|]. split; [reflexivity|].
  split; intros ->; simpl.
  - unfold Part000.maskOf, orElse. simpl.
    apply String.eqb_neq in Hne. rewrite Hne. simpl. by rewrite Hn.
  - done.
Qed.

End ToggleProperties.

Section TransformProperties.
Import JsString Js App Spec.

Lemma lowerOf_searchable (v : Val) (col : string) (e : Obj) :
  get e col = v -> searchableField v ->
  lowerOf (orElse v (VStr "")) = Ok (keyOf col e).
Proof.
  intros <- [[s Hs]|Hf]; unfold orElse, keyOf.
  - rewrite Hs. simpl. by destruct (String.eqb_spec s "") as [->|].
  - by rewrite Hf.
Qed.

Lemma matches_searchable (term : string) (e : Obj) :
  searchable e -> Part000.matches term e = Ok (matchesTerm term e).
Proof.
  intros [Hw Hu]. unfold Part000.matches, matchesTerm.
  rewrite (lowerOf_searchable _ "website" e eq_refl Hw). simpl.
  destruct (includes (keyOf "website" e) term); [done|].
  by rewrite (lowerOf_searchable _ "username" e eq_refl Hu).
Qed.

Lemma filterM_pure {A} (p : A -> Result bool) (q : A -> bool) (l : list A) :
  Forall (fun x => p x = Ok (q x)) l -> filterM p l = Ok (List.filter q l).
Proof.
  induction 1 as [|x l Hx Hl IH]; simpl; [done|]. rewrite Hx, IH. simpl.
  by destruct (q x).
Qed.

Lemma filterM_throws {A} (p : A -> Result bool) (l : list A) (e : Error) :
  Exists (fun x => p x = Throw e) l ->
  (forall x e', p x = Throw e' -> e' = e) ->
  filterM p l = Throw e.
Proof.
  intros Hex Hp. induction Hex as [x l Hx|x l Hex IH]; simpl.
  - by rewrite Hx.
  - destruct (p x) as [b|e'] eqn:Ex; simpl.
    + by rewrite IH.
    + by rewrite (Hp _ _ Ex).
Qed.

(** X13.  For entries whose website and user name are strings or falsy,
    a search with a non-blank term renders exactly the cache entries
    whose website or user name contains the trimmed, lower-cased term,
    case aside, in cache order; nothing else of the state changes. *)
Theorem filterPasswords_renders_matches (searchTerm : string) (st : State) :
  Forall searchable (currentPasswords st) ->
  trim (toLowerCase searchTerm) <> "" ->
  Part000.filterPasswords searchTerm st
  = Ok (renderPasswords
          (List.filter (matchesTerm (trim (toLowerCase searchTerm)))
                       (currentPasswords st)) st).
Proof.
  intros Hall Hne. unfold Part000.filterPasswords.
  apply String.eqb_neq in Hne. rewrite Hne.
  rewrite (filterM_pure _ (matchesTerm (trim (toLowerCase searchTerm)))); [done|].
  eapply Forall_impl; [exact Hall|]. intros e He. by apply matches_searchable.
Qed.

(** X14.  The search lower-cases the website without turning it into a
    string first.  A single entry whose website is truthy and not a
    string, such as a number let through by the import, makes every
    search with a non-blank term throw; the listener then ends with
    nothing rendered and the state as it was. *)
Theorem filterPasswords_throws (searchTerm : string) (st : State) :
  Exists (fun e => truthy (get e "website") = true
                   /\ forall s, get e "website" <> VStr s)
         (currentPasswords st) ->
  trim (toLowerCase searchTerm) <> "" ->
  Part000.filterPasswords searchTerm st = Throw TypeError
  /\ Part000.searchKeyup searchTerm st = st.
Proof.
  intros Hex Hne.
  assert (Part000.filterPasswords searchTerm st = Throw TypeError) as E.
  { unfold Part000.filterPasswords.
    apply String.eqb_neq in Hne. rewrite Hne.
    rewrite (filterM_throws _ _ TypeError); [done| |].
    - eapply Exists_impl; [exact Hex|]. intros e [Ht Hs].
      unfold Part000.matches, orElse. rewrite Ht.
      destruct (get e "website"); try done. by destruct (Hs s).
    - intros e e'. unfold Part000.matches.
      destruct (lowerOf (orElse (get e "website") (VStr ""))) as [w|ew] eqn:Ew;
        simpl.
      + destruct (includes w _); [done|].
        destruct (lowerOf (orElse (get e "username") (VStr ""))) as [u|eu] eqn:Eu;
          simpl; [done|].
        intros [= Heq]. unfold lowerOf in Eu.
        destruct (orElse (get e "username") _); congruence.
      + intros [= Heq]. unfold lowerOf in Ew.
        destruct (orElse (get e "website") _); congruence. }
  split; [exact E|]. unfold Part000.searchKeyup. by rewrite E.
Qed.

(** X15.  A click on a column header never loses or duplicates an entry
    and leaves the cache sorted by the clicked column and rendered: the
    direction flips when the column is the current one and is ascending
    otherwise.  The store is not touched. *)
Theorem headerClick_sorts (newSortColumn : string) (st : State) :
  newSortColumn <> "" ->
  exists st',
    Part000.headerClick newSortColumn st = Ok st'
    /\ sortColumn st' = newSortColumn
    /\ sortDirection st'
       = (if String.eqb newSortColumn (sortColumn st)
          then flipDir (sortDirection st) else Asc)
    /\ currentPasswords st' ≡ₚ currentPasswords st
    /\ inSortOrder st'
    /\ rendered st' = currentPasswords st'
    /\ store st' = store st.
Proof.
  intros Hne. unfold Part000.headerClick.
  apply String.eqb_neq in Hne. rewrite Hne. rewrite Part000_sort.
  eexists. split; [reflexivity|]. simpl. unfold clickSort.
  destruct (String.eqb_spec newSortColumn (sortColumn st)) as [->|Hc]; simpl.
  - split; [reflexivity|]. split; [by destruct (sortDirection st)|].
    split; [apply sortBy_perm|]. split; [apply sortBy_Sorted|]. done.
  - split; [reflexivity|]. split; [reflexivity|].
    split; [apply sortBy_perm|]. split; [apply sortBy_Sorted|]. done.
Qed.

End TransformProperties.

Section ImportEdges.
Import JsString Js App Spec.

Lemma queueAdds_ok (l : list Obj) :
  Forall (fun o => IDB.extractKey o <> IDB.InvalidKey) l ->
  queueAdds l = (l, false).
Proof.
  induction 1 as [|o l Ho Hl IH]; simpl; [done|]. rewrite IH.
  by destruct (IDB.extractKey o).
Qed.

Lemma queueAdds_bad (pre post : list Obj) (bad : Obj) :
  Forall (fun o => IDB.extractKey o <> IDB.InvalidKey) pre ->
  IDB.extractKey bad = IDB.InvalidKey ->
  queueAdds (pre ++ bad :: post) = (pre, true).
Proof.
  intros Hpre Hbad. induction Hpre as [|o l Ho Hl IH]; simpl.
  - by rewrite Hbad.
  - rewrite IH. by destruct (IDB.extractKey o).
Qed.


Lemma runAdds_size (q : list Obj) (s s' : IDB.ObjectStore) :
  runAdds q s = Some s' ->
  size (IDB.records s') = (size (IDB.records s) + length q)%nat.
Proof.
  revert s. induction q as [|o q IH]; simpl; intros s.
  - intros [= <-]. lia.
  - destruct (IDB.add o s) as [k s1| |] eqn:Ea; [|done..].
    intros Hrun. rewrite (IH _ Hrun).
    destruct (storeRecord_Stored _ _ _ _ _ Ea) as (Hrec & Hfree & _).
    rewrite Hrec, map_size_insert_None by (by apply Hfree). lia.
Qed.


Lemma filterM_cons {A} (p : A -> Result bool) (x : A) (l : list A) :
  filterM p (x :: l)
  = match p x with
    | Ok b =>
        match filterM p l with
        | Ok r => Ok (if b then x :: r else r)
        | Throw e => Throw e
        end
    | Throw e => Throw e
    end.
Proof. simpl. by destruct (p x). Qed.

Lemma Part000_filterM_objects (l : list Cand) :
  exists valid valid',
    filterM Part000.isValid l = Ok valid
    /\ filterM Part000.isValid (CObj <$> Shared.objects l) = Ok valid'
    /\ Shared.objects valid = Shared.objects valid'.
Proof.
  induction l as [|c l (valid & valid' & H1 & H2 & H3)].
  { by exists [], []. }
  destruct c as [o|v].
  - change (Shared.objects (CObj o :: l)) with (o :: Shared.objects l).
    rewrite fmap_cons, !filterM_cons, H1, H2.
    destruct (Part000.isValid (CObj o)) as [[|]|] eqn:E; [| |done].
    + eexists _, _. split; [reflexivity|]. split; [reflexivity|].
      change (o :: Shared.objects valid = o :: Shared.objects valid').
      by rewrite H3.
    + by exists valid, valid'.
  - change (Shared.objects (CPrim v :: l)) with (Shared.objects l).
    rewrite filterM_cons, H1. by exists valid, valid'.
Qed.

Variable sortAndRenderPasswords : State -> Result State.
Variable isValid : Cand -> Result bool.


(** X17.  A record whose id is not a valid key (a boolean, [null]) makes
    its [add] throw.  The import then reports a parse error, yet the
    records queued before it are stored, and since no handler had been
    attached the cache is not reloaded: the store holds entries the
    cache and the table do not show. *)
Theorem import_invalid_id_stores_prefix (fmt : Format) (l valid : list Cand)
  (pre post : list Obj) (bad : Obj) (f : Faults) (st : State)
  (s : IDB.ObjectStore) :
  filterM isValid l = Ok valid ->
  dbOpen st = true ->
  Shared.objects valid = pre ++ bad :: post ->
  Forall (fun o => IDB.extractKey o <> IDB.InvalidKey) pre ->
  IDB.extractKey bad = IDB.InvalidKey ->
  commitAdds f pre (store st) = Some s ->
  exists st',
    Shared.importParsed sortAndRenderPasswords isValid fmt (ParsedArray l) f st
    = Ok st'
    /\ alerts st' = alerts st ++ [msgParseError fmt]
    /\ store st' = s
    /\ (forall o, o ∈ pre -> storedAs (store st) s o)
    /\ size (IDB.records s) = (size (IDB.records (store st)) + length pre)%nat
    /\ currentPasswords st' = currentPasswords st
    /\ rendered st' = rendered st.
Proof.
  intros Hv Hdb Hobj Hpre Hbad Hc.
  exists (alert (msgParseError fmt) (withStore s (logCalls (map CallAdd pre) st))).
  split.
  - unfold Shared.importParsed. rewrite Hv, Hobj.
    assert ((0 <? length (pre ++ bad :: post))%nat = true) as ->.
    { apply Nat.ltb_lt. rewrite length_app. simpl. lia. }
    rewrite Hdb. simpl negb. cbv iota.
    rewrite (queueAdds_bad _ _ _ Hpre Hbad). simpl store. by rewrite Hc.
  - simpl. split; [done|]. split; [done|].
    unfold commitAdds in Hc. destruct (writeFails f); [done|].
    split; [by apply runAdds_spec in Hc as (_ & _ & H)|].
    split; [by apply runAdds_size|]. done.
Qed.

End ImportEdges.

Section ImportRevisions.
Import JsString Js App Spec.

(** X18.  An array element that is [null] is no record.  The import of
    [src/script.js] reads a property of it, so one such element ends the
    whole import with a parse-error alert and nothing stored; the import
    of the later revision passes over every element that is not an
    object and goes on as if it were not there. *)
Theorem import_null_element (fmt : Format) (l : list Cand) (f : Faults)
  (st : State) :
  CPrim VNull ∈ l ->
  ScriptJs.importParsed fmt (ParsedArray l) f st
  = Ok (alert (msgParseError fmt) st)
  /\ Part000.importParsed fmt (ParsedArray l) f st
     = Part000.importParsed fmt (ParsedArray (CObj <$> Shared.objects l)) f st.
Proof.
  intros Hnull. split.
  - unfold ScriptJs.importParsed, Shared.importParsed.
    rewrite (filterM_throws _ _ TypeError); [done| |].
    + apply Exists_exists. by exists (CPrim VNull).
    + intros [o|v] e'; simpl; [done|]. destruct v; congruence.
  - destruct (Part000_filterM_objects l) as (valid & valid' & H1 & H2 & H3).
    unfold Part000.importParsed, Shared.importParsed.
    by rewrite H1, H2, H3.
Qed.

(** X19.  An import whose transaction commits adds one record to the
    store for every valid record of the file and then reloads: the cache
    mirrors the store, sorted and rendered, and the user is told how
    many records were imported. *)
Theorem import_committed_reloads (fmt : Format) (l valid : list Cand)
  (f : Faults) (st : State) (s : IDB.ObjectStore) :
  filterM Part000.isValid l = Ok valid ->
  Shared.objects valid <> [] ->
  dbOpen st = true -> readFails f = false ->
  queueAdds (Shared.objects valid) = (Shared.objects valid, false) ->
  commitAdds f (Shared.objects valid) (store st) = Some s ->
  exists st',
    Part000.importParsed fmt (ParsedArray l) f st = Ok st'
    /\ store st' = s
    /\ size (IDB.records s)
       = (size (IDB.records (store st)) + length (Shared.objects valid))%nat
    /\ mirrors st'
    /\ length (currentPasswords st')
       = (size (IDB.records (store st)) + length (Shared.objects valid))%nat
    /\ inSortOrder st'
    /\ rendered st' = currentPasswords st'
    /\ alerts st' = alerts st ++ [msgImported (length (Shared.objects valid))].
Proof.
  intros Hv Hne Hdb Hr Hq Hc.
  destruct (load_ok f
              (alert (msgImported (length (Shared.objects valid)))
                 (withStore s
                    (logCalls (map CallAdd (Shared.objects valid)) st))))
    as (st' & E & Hs & Hm & Hso & Hre & Ha); [exact Hdb | exact Hr |].
  exists st'. split.
  { unfold Part000.importParsed, Shared.importParsed. rewrite Hv.
    destruct (Shared.objects valid) as [|o q] eqn:Eo; [done|].
    simpl (0 <? _)%nat. cbv iota. rewrite Hdb. simpl negb. cbv iota.
    rewrite Hq. simpl store. rewrite Hc. exact E. }
  assert (size (IDB.records s)
          = (size (IDB.records (store st)) + length (Shared.objects valid))%nat)
    as Hsize.
  { unfold commitAdds in Hc. destruct (writeFails f); [done|].
    by apply runAdds_size. }
  split; [exact Hs|]. split; [exact Hsize|]. split; [exact Hm|].
  split.
  { unfold mirrors in Hm. rewrite Hm, length_fmap, length_map_to_list, Hs.
    exact Hsize. }
  split; [exact Hso|]. split; [exact Hre|]. exact Ha.
Qed.

End ImportRevisions.

(* ===================================================================== *)
(** * Further properties: the delimited text, written and read back *)
(* ===================================================================== *)

Section CsvRoundTrip.
Import JsString Js Csv App Spec.
#[local] Arguments Ascii.eqb : simpl never.

Lemma includesChar_append (s t : string) (c : ascii) :
  includesChar (s ++ t)%string c = includesChar s c || includesChar t c.
Proof.
  induction s as [|d s IH]; [reflexivity|].
  rewrite append_cons. simpl. rewrite IH. by rewrite orb_assoc.
Qed.

Lemma includesChar_doubleQuotes (s : string) (c : ascii) :
  Ascii.eqb DQUOTE c = false ->
  includesChar (doubleQuotes s) c = includesChar s c.
Proof.
  intros Hc. induction s as [|d s IH]; [reflexivity|]. simpl.
  destruct (Ascii.eqb d DQUOTE) eqn:E; simpl.
  - apply Ascii.eqb_eq in E. subst d. by rewrite Hc, IH.
  - by rewrite IH.
Qed.

Lemma replaceCRLF_noCR (s : string) :
  includesChar s CR = false -> replaceCRLF s = s.
Proof.
  induction s as [|c s IH]; [reflexivity|]. simpl.
  destruct (Ascii.eqb c CR); [done|]. simpl. intros H. by rewrite IH.
Qed.

Lemma replaceCR_noCR (s : string) :
  includesChar s CR = false -> replaceCR s = s.
Proof.
  induction s as [|c s IH]; [reflexivity|]. simpl.
  destruct (Ascii.eqb c CR); [done|]. simpl. intros H. by rewrite IH.
Qed.

Lemma replaceCR_has_noCR (s : string) : includesChar (replaceCR s) CR = false.
Proof.
  induction s as [|c s IH]; [reflexivity|]. simpl. rewrite IH.
  destruct (Ascii.eqb_spec c CR) as [->|Hc]; [reflexivity|].
  by apply Ascii.eqb_neq in Hc as ->.
Qed.

Lemma replaceCRLF_append (l t : string) :
  includesChar l CR = false ->
  replaceCRLF (l ++ CRLF ++ t)%string = (l ++ str1 LF ++ replaceCRLF t)%string.
Proof.
  induction l as [|c l IH]; [reflexivity|].
  rewrite !append_cons. simpl.
  destruct (Ascii.eqb c CR); [done|]. simpl. intros H. by rewrite IH.
Qed.

Lemma replaceCR_append (l t : string) :
  replaceCR (l ++ t)%string = (replaceCR l ++ replaceCR t)%string.
Proof.
  induction l as [|c l IH]; [reflexivity|].
  rewrite !append_cons. simpl. by rewrite IH.
Qed.

Lemma join_cons2 (sep p q : string) (rest : list string) :
  join sep (p :: q :: rest) = (p ++ sep ++ join sep (q :: rest))%string.
Proof. reflexivity. Qed.

Lemma normalize_join (lines : list string) :
  Forall noLineBreak lines ->
  normalize (join CRLF lines) = join (str1 LF) lines.
Proof.
  unfold normalize.
  induction 1 as [|p rest [Hcr Hlf] Hrest IH]; [reflexivity|].
  destruct rest as [|q rest].
  - simpl. by rewrite replaceCRLF_noCR, replaceCR_noCR.
  - rewrite !join_cons2, replaceCRLF_append by done.
    rewrite !replaceCR_append, IH. by rewrite replaceCR_noCR.
Qed.

Lemma split_noSep (sep : ascii) (s : string) :
  includesChar s sep = false -> split sep s = [s].
Proof.
  induction s as [|c s IH]; [reflexivity|]. simpl.
  destruct (Ascii.eqb c sep); [done|]. simpl. intros H. by rewrite IH.
Qed.

Lemma split_append (sep : ascii) (l t : string) :
  includesChar l sep = false ->
  split sep (l ++ str1 sep ++ t)%string = l :: split sep t.
Proof.
  induction l as [|c l IH].
  - intros _. change (split sep (String sep t) = "" :: split sep t).
    simpl. by rewrite Ascii.eqb_refl.
  - rewrite append_cons. simpl.
    destruct (Ascii.eqb c sep); [done|]. simpl. intros H. by rewrite IH.
Qed.

Lemma split_join (lines : list string) :
  lines <> [] -> Forall (fun l => includesChar l LF = false) lines ->
  split LF (join (str1 LF) lines) = lines.
Proof.
  intros Hne Hall. induction Hall as [|p rest Hp Hrest IH]; [done|].
  destruct rest as [|q rest].
  - simpl. by apply split_noSep.
  - rewrite join_cons2, split_append by done. by rewrite IH.
Qed.

Lemma parseRowFrom_plain (s rest : string) (fields : list string) (cur : string) :
  includesChar s DQUOTE = false -> includesChar s COMMA = false ->
  Part000.parseRowFrom (s ++ rest)%string fields cur false
  = Part000.parseRowFrom rest fields (cur ++ s)%string false.
Proof.
  revert cur. induction s as [|c s IH]; intros cur.
  - intros _ _. by rewrite append_empty_r.
  - rewrite append_cons. simpl.
    destruct (Ascii.eqb c DQUOTE); [done|].
    destruct (Ascii.eqb c COMMA); [done|]. simpl. intros H1 H2.
    rewrite IH by done. by rewrite append_assoc1.
Qed.

Lemma parseRowFrom_quoted_then (s rest : string) (fields : list string)
  (cur : string) :
  notQuoteHead rest ->
  Part000.parseRowFrom (doubleQuotes s ++ str1 DQUOTE ++ rest)%string
                       fields cur true
  = Part000.parseRowFrom rest fields (cur ++ s)%string false.
Proof.
  intros Hrest. revert cur. induction s as [|c s IH]; intros cur.
  - rewrite append_empty_r.
    change (Part000.parseRowFrom (String DQUOTE rest) fields cur true
            = Part000.parseRowFrom rest fields cur false).
    simpl. destruct rest as [|d rest']; [reflexivity|].
    simpl in Hrest. by rewrite Hrest.
  - simpl doubleQuotes. destruct (Ascii.eqb c DQUOTE) eqn:E.
    + apply Ascii.eqb_eq in E as ->.
      rewrite !append_cons. simpl. rewrite IH. by rewrite append_assoc1.
    + rewrite append_cons. simpl. rewrite E, IH. by rewrite append_assoc1.
Qed.

Lemma append_assoc (a b c : string) :
  ((a ++ b) ++ c)%string = (a ++ b ++ c)%string.
Proof.
  induction a as [|x a IH]; [reflexivity|].
  rewrite !append_cons. by rewrite IH.
Qed.

Lemma parseRowFrom_field (v : Val) (rest : string) (fields : list string) :
  notQuoteHead rest ->
  Part000.parseRowFrom (Part000.csvEscape v ++ rest)%string fields "" false
  = Part000.parseRowFrom rest fields (fieldText v) false.
Proof.
  intros Hrest. rewrite csvEscape_fieldText.
  destruct (Part000.needsQuoting (fieldText v)) eqn:E.
  - unfold quoted. rewrite !append_assoc.
    change (str1 DQUOTE ++ (doubleQuotes (fieldText v) ++ str1 DQUOTE ++ rest))%string
      with (String DQUOTE (doubleQuotes (fieldText v) ++ str1 DQUOTE ++ rest)%string).
    simpl. by rewrite parseRowFrom_quoted_then.
  - unfold Part000.needsQuoting in E.
    apply orb_false_elim in E as [E Hlf]. apply orb_false_elim in E as [Hq Hc].
    by rewrite parseRowFrom_plain.
Qed.

Lemma parseRowFrom_fields (vs : list Val) (fields : list string) :
  vs <> [] ->
  Part000.parseRowFrom (join "," (map Part000.csvEscape vs)) fields "" false
  = fields ++ map fieldText vs.
Proof.
  revert fields. induction vs as [|v vs IH]; intros fields Hne; [done|].
  destruct vs as [|v2 vs].
  - simpl map. simpl join.
    rewrite <- (append_empty_r (Part000.csvEscape v)).
    rewrite parseRowFrom_field by exact I. reflexivity.
  - change (map Part000.csvEscape (v :: v2 :: vs))
      with (Part000.csvEscape v :: Part000.csvEscape v2
              :: map Part000.csvEscape vs).
    rewrite join_cons2.
    rewrite parseRowFrom_field by reflexivity.
    change ("," ++ join "," (Part000.csvEscape v2 :: map Part000.csvEscape vs))%string
      with (String COMMA
              (join "," (map Part000.csvEscape (v2 :: vs)))).
    simpl Part000.parseRowFrom.
    rewrite IH by done. by rewrite <- app_assoc.
Qed.

(** The row written for an entry, read back. *)
Lemma parseRow_of_csvRow (row : Obj) :
  Part000.parseRow (Part000.csvRow row)
  = [fieldText (get row "website"); fieldText (get row "username");
     fieldText (get row "password")].
Proof.
  unfold Part000.parseRow, Part000.csvRow.
  change (map (fun fieldName => Part000.csvEscape (get row fieldName)) csvHeaders)
    with (map Part000.csvEscape
            [get row "website"; get row "username"; get row "password"]).
  by rewrite parseRowFrom_fields.
Qed.

(** X20.  Whatever the three fields of an entry hold, the row
    [exportToCSV] writes for it is read back by [parseRow] as exactly
    the three field texts: commas and quotes inside a field survive the
    quoting. *)
Theorem parseRow_csvRow (row : Obj) :
  Part000.parseRow (Part000.csvRow row)
  = [fieldText (get row "website"); fieldText (get row "username");
     fieldText (get row "password")].
Proof. exact (parseRow_of_csvRow row). Qed.

End CsvRoundTrip.

Section CsvFile.
Import JsString Js Csv App Spec.
#[local] Arguments Ascii.eqb : simpl never.

Lemma trimStart_includes (s : string) (c : ascii) :
  isWhiteSpace c = false -> includesChar s c = true ->
  includesChar (trimStart s) c = true.
Proof.
  intros Hc. induction s as [|d s IH]; [done|]. simpl.
  destruct (isWhiteSpace d) eqn:Ed; [|done].
  destruct (Ascii.eqb_spec d c) as [->|_]; [congruence|]. simpl. exact IH.
Qed.

Lemma trimEnd_includes (s : string) (c : ascii) :
  isWhiteSpace c = false -> includesChar s c = true -> trimEnd s <> "".
Proof.
  intros Hc. induction s as [|d s IH]; [done|]. simpl.
  destruct (trimEnd s) as [|x r] eqn:Er; [|done].
  destruct (Ascii.eqb_spec d c) as [->|_]; simpl.
  - intros _. by rewrite Hc.
  - intros H. by destruct (IH H).
Qed.

Lemma isBlank_comma (s : string) :
  includesChar s COMMA = true -> isBlank s = false.
Proof.
  intros H. unfold isBlank, trim. apply String.eqb_neq.
  apply (trimEnd_includes _ COMMA); [reflexivity|].
  by apply trimStart_includes.
Qed.

Lemma includesChar_csvEscape (v : Val) (c : ascii) :
  Ascii.eqb DQUOTE c = false ->
  includesChar (Part000.csvEscape v) c = includesChar (fieldText v) c.
Proof.
  intros Hc. rewrite csvEscape_fieldText.
  destruct (Part000.needsQuoting (fieldText v)); [|done].
  unfold quoted. rewrite !includesChar_append, includesChar_doubleQuotes by done.
  simpl. rewrite Hc. simpl. by rewrite orb_false_r.
Qed.

Lemma csvRow_eq (row : Obj) :
  Part000.csvRow row
  = (Part000.csvEscape (get row "website") ++ "," ++
     Part000.csvEscape (get row "username") ++ "," ++
     Part000.csvEscape (get row "password"))%string.
Proof. reflexivity. Qed.

Lemma csvRow_comma (row : Obj) : includesChar (Part000.csvRow row) COMMA = true.
Proof.
  rewrite csvRow_eq, !includesChar_append.
  change (includesChar "," COMMA) with true. by rewrite !orb_true_r.
Qed.

Lemma csvRow_noLineBreak (row : Obj) :
  lineFree row -> noLineBreak (Part000.csvRow row).
Proof.
  intros ([H1 H2] & [H3 H4] & [H5 H6]). split; rewrite csvRow_eq.
  - rewrite !includesChar_append, !includesChar_csvEscape by reflexivity.
    rewrite H1, H3, H5. reflexivity.
  - rewrite !includesChar_append, !includesChar_csvEscape by reflexivity.
    rewrite H2, H4, H6. reflexivity.
Qed.

Lemma buildRecord_three (a b c : string) :
  buildRecord csvHeaders [a; b; c] = record3 a b c.
Proof.
  apply map_eq. intros k. unfold buildRecord, record3, csvHeaders. simpl.
  unfold set. simpl.
  destruct (decide (k = "password")) as [->|H1]; [by simplify_map_eq|].
  destruct (decide (k = "username")) as [->|H2]; [by simplify_map_eq|].
  destruct (decide (k = "website")) as [->|H3]; [by simplify_map_eq|].
  by simplify_map_eq.
Qed.

Lemma parseLine_csvRow (row : Obj) :
  Part000.parseLine csvHeaders (Part000.csvRow row) = Some (exported row).
Proof.
  unfold Part000.parseLine.
  rewrite (isBlank_comma _ (csvRow_comma row)), parseRow_of_csvRow. simpl.
  by rewrite buildRecord_three.
Qed.

Lemma csvText_nonempty (entries : list Obj) :
  String.eqb (Part000.csvText entries) "" = false.
Proof. unfold Part000.csvText. by destruct entries. Qed.

(** The parser looks at its input through the two replacements only. *)
Lemma parseCSV_normalize (csv : string) :
  Part000.parseCSV csv
  = match Part000.skipBlank (split LF (normalize csv)) with
    | [] => []
    | headerLine :: rest =>
        omap (Part000.parseLine (map trim (Part000.parseRow headerLine))) rest
    end.
Proof.
  unfold Part000.parseCSV, normalize.
  destruct (String.eqb_spec csv "") as [->|_]; reflexivity.
Qed.

(** X21.  Export and import of the delimited text are inverse to each
    other on the three exported fields, as long as no field holds a line
    break: the text written for a list of entries is read back as the
    same list, entry by entry, with website, user name and password as
    they were and nothing else (the id is not exported). *)
Theorem csv_round_trip (entries : list Obj) :
  Forall lineFree entries ->
  Part000.parseCSV (Part000.csvText entries) = map exported entries.
Proof.
  intros Hall. rewrite parseCSV_normalize. unfold Part000.csvText.
  assert (Forall noLineBreak
            (join "," csvHeaders :: map Part000.csvRow entries)) as Hlines.
  { constructor; [by split|]. apply Forall_fmap.
    eapply Forall_impl; [exact Hall|]. intros e He. by apply csvRow_noLineBreak. }
  rewrite (normalize_join _ Hlines), split_join;
    [|done|eapply Forall_impl; [exact Hlines|]; by intros l [_ H]].
  transitivity (omap (Part000.parseLine csvHeaders)
                     (map Part000.csvRow entries)); [reflexivity|].
  clear Hall Hlines. induction entries as [|e entries IH]; [reflexivity|].
  change (omap (Part000.parseLine csvHeaders)
               (Part000.csvRow e :: map Part000.csvRow entries)
          = exported e :: map exported entries).
  rewrite <- IH. unfold omap at 1. simpl list_omap.
  by rewrite parseLine_csvRow.
Qed.

Lemma normalize_idem (csv : string) : normalize (normalize csv) = normalize csv.
Proof.
  unfold normalize at 1.
  rewrite (replaceCRLF_noCR (normalize csv)) by apply replaceCR_has_noCR.
  apply replaceCR_noCR, replaceCR_has_noCR.
Qed.

(** X22.  The parser does not care how lines end: two texts that differ
    only in using CRLF, a lone CR or LF between lines are parsed to the
    same records. *)
Theorem parseCSV_line_endings (csv1 csv2 : string) :
  normalize csv1 = normalize csv2 ->
  Part000.parseCSV csv1 = Part000.parseCSV csv2
  /\ Part000.parseCSV (normalize csv1) = Part000.parseCSV csv1.
Proof.
  intros H. rewrite !parseCSV_normalize, normalize_idem, H. done.
Qed.

End CsvFile.

(* ===================================================================== *)
(** * Further properties: a Save the store turns down *)
(* ===================================================================== *)

Section AddFailure.
Import JsString Js App Spec.

Lemma storeRecord_throws (b : bool) (o : Obj) (s : IDB.ObjectStore) :
  IDB.storeRecord b o s = IDB.InvalidKeyError ->
  IDB.extractKey o = IDB.InvalidKey.
Proof.
  unfold IDB.storeRecord. destruct (IDB.extractKey o) as [| |k]; [|done|].
  - destruct (IDB.maxGenerated <? IDB.keyGen s)%Z; [done|].
    destruct (b && _); done.
  - destruct (b && _); done.
Qed.

(** X23.  An [add] that the store turns down, because the write fails or
    because the entry names an id that is taken, changes neither store
    nor cache nor table.  The later revision tells the user; the code of
    [src/script.js] writes to the console only, so the form looks as it
    did before the click. *)
Theorem addPassword_turned_down (entry : Obj) (f : Faults) (st : State) :
  dbOpen st = true ->
  IDB.extractKey entry <> IDB.InvalidKey ->
  writeFails f = true
  \/ (exists k v, IDB.extractKey entry = IDB.ValidKey k
                  /\ IDB.records (store st) !! k = Some v) ->
  exists st1 st2,
    Part000.addPassword entry f st = Ok st1
    /\ ScriptJs.addPassword entry f st = Ok st2
    /\ store st1 = store st /\ store st2 = store st
    /\ currentPasswords st1 = currentPasswords st
    /\ currentPasswords st2 = currentPasswords st
    /\ rendered st1 = rendered st /\ rendered st2 = rendered st
    /\ alerts st1 = alerts st ++ [msgAddFailed]
    /\ alerts st2 = alerts st.
Proof.
  intros Hopen Hkey Hwhy.
  exists (alert msgAddFailed (logCalls [CallAdd entry] st)),
         (logCalls [CallAdd entry] st).
  unfold Part000.addPassword, ScriptJs.addPassword. rewrite Hopen. simpl.
  destruct Hwhy as [Hw | (k & v & Hk & Hv)].
  - rewrite Hw.
    destruct (IDB.add entry (store st)) as [k s| |] eqn:E; simpl;
      try (repeat split; reflexivity).
    destruct Hkey. exact (storeRecord_throws _ _ _ E).
  - rewrite (add_taken _ _ _ _ Hk Hv).
    destruct (writeFails f); repeat split; reflexivity.
Qed.

Lemma addPassword_turned_down_witness :
  writeFails writeFault = true
  /\ exists st1 st2,
       Part000.addPassword carol writeFault stByUser = Ok st1
       /\ ScriptJs.addPassword carol writeFault stByUser = Ok st2
       /\ alerts st1 = [msgAddFailed] /\ alerts st2 = [].
Proof.
  split; [reflexivity|].
  assert (IDB.extractKey carol <> IDB.InvalidKey) as Hk
      by (vm_compute; discriminate).
  destruct (addPassword_turned_down carol writeFault stByUser eq_refl Hk
              (or_introl eq_refl))
    as (st1 & st2 & E1 & E2 & _ & _ & _ & _ & _ & _ & A1 & A2).
  exists st1, st2. split; [exact E1|]. split; [exact E2|].
  split; [exact A1 | exact A2].
Defined.

End AddFailure.

(* ===================================================================== *)
(** * The further properties on sample data *)
(* ===================================================================== *)

Section FurtherExamples.
Import JsString Js Csv App Spec.

Lemma byUser_canGenerate : canGenerate (store stByUser).
Proof. split; [vm_compute; discriminate | vm_compute; reflexivity]. Qed.

Lemma carol_noKey : IDB.extractKey carol = IDB.NoKey.
Proof. vm_compute. reflexivity. Qed.

Lemma loadPasswords_resynchronises_witness :
  dbOpen stByUser = true /\ readFails noFaults = false
  /\ exists st',
       Part000.loadPasswords noFaults stByUser = Ok st'
       /\ mirrors st' /\ inSortOrder st'.
Proof.
  split; [reflexivity|]. split; [reflexivity|].
  destruct (loadPasswords_resynchronises noFaults stByUser eq_refl eq_refl)
    as (st' & H1 & _ & H3 & H4 & _).
  exists st'. split; [exact H1|]. split; [exact H3 | exact H4].
Defined.

Lemma addPassword_appends_witness :
  exists s st',
    IDB.add carol (store stByUser) = IDB.Stored (IDB.KNum 3) s
    /\ Part000.addPassword carol noFaults stByUser = Ok st'
    /\ length (currentPasswords st') = 3%nat
    /\ IDB.records s !! IDB.KNum 3 = Some (<["id" := VNum 3]> carol).
Proof.
  pose proof (add_generates carol (store stByUser) carol_noKey byUser_canGenerate)
    as Hadd.
  destruct (addPassword_appends carol noFaults stByUser _ _ eq_refl eq_refl Hadd)
    as (st' & H1 & _ & _ & H4 & _ & H6 & _).
  eexists _, st'. split; [exact Hadd|]. split; [exact H1|].
  split; [exact H4 | exact H6].
Defined.

Lemma saveClick_rejects_blank_witness :
  dbOpen stByUser = true /\ trim "   " = ""
  /\ Part000.saveClick "   " "bob" "pw" (VNum 0) noFaults stByUser
     = Ok (alert msgFillAll stByUser).
Proof.
  split; [reflexivity|]. split; [reflexivity|].
  exact (proj1 (saveClick_rejects_blank "   " "bob" "pw" (VNum 0) noFaults
                  stByUser eq_refl (or_introl eq_refl))).
Defined.

Lemma saveClick_stores_trimmed_witness :
  canGenerate (store stByUser)
  /\ exists st',
       Part000.saveClick " c.com " "carol " " p3 " (VNum 0) noFaults stByUser
       = Ok st'
       /\ IDB.records (store st') !! IDB.KNum 3
          = Some {[ "id" := VNum 3; "website" := VStr "c.com";
                    "username" := VStr "carol"; "password" := VStr " p3 ";
                    "createdAt" := VNum 0 ]}.
Proof.
  split; [exact byUser_canGenerate|].
  assert (trim " c.com " <> "") as H1 by discriminate.
  assert (trim "carol " <> "") as H2 by discriminate.
  assert (" p3 " <> "") as H3 by discriminate.
  destruct (saveClick_stores_trimmed " c.com " "carol " " p3 " (VNum 0) noFaults
              stByUser eq_refl eq_refl H1 H2 H3 byUser_canGenerate)
    as (st' & E & _ & _ & Hrec & _).
  exists st'. split; [exact E | exact Hrec].
Defined.

Lemma deletePassword_effects_witness :
  IDB.valueToKey (VNum 1) = Some (IDB.KNum 1)
  /\ exists st',
       Part000.deletePassword (VNum 1) noFaults stByUser = Ok st'
       /\ length (currentPasswords st') = 1%nat
       /\ IDB.records (store st') !! IDB.KNum 1 = None
       /\ inSortOrder st' /\ consistent st'.
Proof.
  split; [reflexivity|].
  destruct (deletePassword_effects (VNum 1) noFaults stByUser (IDB.KNum 1)
              eq_refl eq_refl eq_refl)
    as (st' & E & _ & _ & Hlen & Hrec & _ & Hso & Hc).
  exists st'. split; [exact E|]. split.
  { assert (~ absentFrom (VNum 1) (currentPasswords stByUser)) as Hn.
    { intros H. apply Forall_inv in H. vm_compute in H. discriminate H. }
    specialize (Hlen Hn). simpl in Hlen. lia. }
  split; [exact Hrec|].
  split; [exact (Hso byUser_inSortOrder) | exact (Hc byUser_consistent)].
Defined.

Lemma deletePassword_failure_resyncs_witness :
  writeFails writeFault = true
  /\ exists st',
       Part000.deletePassword (VNum 1) writeFault stByUser = Ok st'
       /\ store st' = store stByUser
       /\ currentPasswords st' ≡ₚ byUser.
Proof.
  split; [reflexivity|].
  destruct (deletePassword_failure_resyncs (VNum 1) writeFault stByUser
              (IDB.KNum 1) eq_refl eq_refl eq_refl eq_refl)
    as (st' & E & Hs & _ & _ & _ & _ & Hp).
  exists st'. split; [exact E|]. split; [exact Hs|].
  exact (Hp (proj2 byUser_consistent)).
Defined.

Lemma text_ids_out_of_reach_witness :
  Forall hasTextId (currentPasswords stTextId)
  /\ exists st',
       Part000.deletePassword (VNum 42) noFaults stTextId = Ok st'
       /\ currentPasswords st' = [recWithId]
       /\ Part000.editSave (VNum 42) "bob" "new" noFaults stTextId
          = Ok (alert msgIdNotFound stTextId).
Proof.
  assert (Forall hasTextId (currentPasswords stTextId)) as Hall.
  { apply Forall_cons; split; [|apply Forall_nil_2].
    exists "42". vm_compute. reflexivity. }
  split; [exact Hall|].
  assert (forall s, VNum 42 <> VStr s) as Hid by discriminate.
  destruct (text_ids_out_of_reach (VNum 42) "bob" "new" noFaults stTextId
              (IDB.KNum 42) Hid eq_refl eq_refl eq_refl)
    as (st' & E & _ & H).
  destruct (H Hall) as [Hc He].
  exists st'. split; [exact E|]. split; [exact Hc | exact He].
Defined.

Lemma editSave_in_place_witness :
  consistent stByUser
  /\ exists st',
       Part000.editSave (VNum 1) "zed" "p1" noFaults stByUser = Ok st'
       /\ consistent st'
       /\ length (currentPasswords st') = 2%nat.
Proof.
  split; [exact byUser_consistent|].
  destruct (editSave_in_place (VNum 1) "zed" "p1" noFaults stByUser
              byUser_consistent eq_refl)
    as (st' & E & Hc & Hlen & _).
  exists st'. split; [exact E|]. split; [exact Hc | exact Hlen].
Defined.

Lemma updatePassword_failure_resyncs_witness :
  IDB.extractKey (mkEntry 1 "a.com" "zed" "p1") <> IDB.InvalidKey
  /\ hasPassword (mkEntry 1 "a.com" "zed" "p1")
  /\ exists st',
       Part000.updatePassword (mkEntry 1 "a.com" "zed" "p1") writeFault stByUser
       = Ok st'
       /\ store st' = store stByUser
       /\ currentPasswords st' ≡ₚ byUser.
Proof.
  assert (IDB.extractKey (mkEntry 1 "a.com" "zed" "p1") <> IDB.InvalidKey) as Hk
      by (vm_compute; discriminate).
  split; [exact Hk|].
  assert (hasPassword (mkEntry 1 "a.com" "zed" "p1")) as Hpw
      by (split; vm_compute; discriminate).
  split; [exact Hpw|].
  destruct (updatePassword_failure_resyncs (mkEntry 1 "a.com" "zed" "p1")
              writeFault stByUser eq_refl eq_refl eq_refl Hk Hpw)
    as (st' & E & Hs & _ & _ & _ & _ & Hp).
  exists st'. split; [exact E|]. split; [exact Hs|].
  exact (Hp (proj2 byUser_consistent)).
Defined.

Lemma clear_confirmed_witness :
  let ss := mkSession stByUser false in
  dbOpen (app ss) = true
  /\ currentPasswords
       (app (Shared.modalConfirm noFaults (Shared.clearAllPasswords ss))) = []
  /\ IDB.keyGen
       (store (app (Shared.modalConfirm noFaults (Shared.clearAllPasswords ss))))
     = 3%Z.
Proof.
  intros ss. split; [reflexivity|].
  destruct (clear_confirmed noFaults ss eq_refl eq_refl)
    as (H1 & _ & H3 & _).
  split; [exact H1 | exact H3].
Defined.

Lemma toggle_twice_witness :
  "p*1" <> ""
  /\ Part000.togglePasswordVisibility (maskedSpan "p*1") (VStr "p*1")
     = mkSpan "p*1" "red"
  /\ Part000.togglePasswordVisibility (mkSpan "p*1" "red") (VStr "p*1")
     = mkSpan "p*1" "red".
Proof.
  assert ("p*1" <> "") as Hne by discriminate.
  split; [exact Hne|].
  destruct (toggle_twice "p*1" Hne) as (H1 & _ & _ & H4).
  split; [exact H1 | exact (proj1 (H4 eq_refl))].
Defined.

Lemma byUser_searchable : Forall searchable (currentPasswords stByUser).
Proof.
  assert (forall e, (exists w, get e "website" = VStr w) ->
                    (exists u, get e "username" = VStr u) -> searchable e) as H.
  { intros e Hw Hu. split; left; assumption. }
  apply Forall_cons; split; [|apply Forall_cons; split; [|apply Forall_nil_2]];
    apply H; eexists; vm_compute; reflexivity.
Qed.

Lemma filterPasswords_renders_matches_witness :
  Forall searchable (currentPasswords stByUser)
  /\ trim (toLowerCase " B ") <> ""
  /\ exists st',
       Part000.filterPasswords " B " stByUser = Ok st'
       /\ rendered st' = [mkEntry 2 "b.com" "bob" "p2"].
Proof.
  assert (trim (toLowerCase " B ") <> "") as Hne by discriminate.
  split; [exact byUser_searchable|]. split; [exact Hne|].
  eexists. split.
  - exact (filterPasswords_renders_matches " B " stByUser byUser_searchable Hne).
  - vm_compute. reflexivity.
Defined.

Lemma numericSite_throws :
  Exists (fun e => truthy (get e "website") = true
                   /\ forall s, get e "website" <> VStr s)
         (currentPasswords stNumericSite).
Proof.
  left. split; [vm_compute; reflexivity|].
  intros s H. vm_compute in H. discriminate H.
Qed.

Lemma filterPasswords_throws_witness :
  Exists (fun e => truthy (get e "website") = true
                   /\ forall s, get e "website" <> VStr s)
         (currentPasswords stNumericSite)
  /\ Part000.filterPasswords "u" stNumericSite = Throw TypeError.
Proof.
  split; [exact numericSite_throws|].
  assert (trim (toLowerCase "u") <> "") as Hne by discriminate.
  exact (proj1 (filterPasswords_throws "u" stNumericSite numericSite_throws Hne)).
Defined.

Lemma headerClick_sorts_witness :
  "website" <> ""
  /\ exists st',
       Part000.headerClick "website" stByUser = Ok st'
       /\ sortColumn st' = "website" /\ sortDirection st' = Asc
       /\ inSortOrder st'.
Proof.
  assert ("website" <> "") as Hne by discriminate.
  split; [exact Hne|].
  destruct (headerClick_sorts "website" stByUser Hne)
    as (st' & E & Hc & Hd & _ & Hs & _).
  exists st'. split; [exact E|]. split; [exact Hc|].
  split; [exact Hd | exact Hs].
Defined.


Lemma import_invalid_id_stores_prefix_witness :
  let l := [CObj carol; CObj badIdEntry] in
  let s := default IDB.empty (commitAdds noFaults [carol] (store st0)) in
  IDB.extractKey badIdEntry = IDB.InvalidKey
  /\ exists st',
       Part000.importParsed FJson (ParsedArray l) noFaults st0 = Ok st'
       /\ alerts st' = [msgParseError FJson]
       /\ size (IDB.records (store st')) = 1%nat
       /\ currentPasswords st' = [].
Proof.
  intros l s.
  assert (IDB.extractKey badIdEntry = IDB.InvalidKey) as Hbad
      by (vm_compute; reflexivity).
  split; [exact Hbad|].
  assert (filterM Part000.isValid l = Ok l) as H1 by (vm_compute; reflexivity).
  assert (Shared.objects l = [carol] ++ badIdEntry :: []) as H2 by reflexivity.
  assert (Forall (fun o => IDB.extractKey o <> IDB.InvalidKey) [carol]) as H3.
  { apply Forall_cons; split; [|apply Forall_nil_2].
    rewrite carol_noKey. discriminate. }
  assert (commitAdds noFaults [carol] (store st0) = Some s) as H4
      by (vm_compute; reflexivity).
  destruct (import_invalid_id_stores_prefix Part000.sortAndRenderPasswords
              Part000.isValid FJson l l [carol] [] badIdEntry noFaults st0 s
              H1 eq_refl H2 H3 Hbad H4)
    as (st' & E & Ha & Hs & _ & Hsize & Hc & _).
  exists st'. split; [exact E|]. split; [exact Ha|].
  split; [rewrite Hs, Hsize; reflexivity | exact Hc].
Defined.

Lemma import_null_element_witness :
  let l := [CPrim VNull; CObj carol] in
  CPrim VNull ∈ l
  /\ ScriptJs.importParsed FJson (ParsedArray l) noFaults st0
     = Ok (alert (msgParseError FJson) st0)
  /\ Part000.importParsed FJson (ParsedArray l) noFaults st0
     = Part000.importParsed FJson (ParsedArray [CObj carol]) noFaults st0.
Proof.
  intros l.
  assert (CPrim VNull ∈ l) as H by left.
  split; [exact H|].
  exact (import_null_element FJson l noFaults st0 H).
Defined.

Lemma import_committed_reloads_witness :
  let l := [CObj carol] in
  let s := default IDB.empty (commitAdds noFaults [carol] (store stByUser)) in
  commitAdds noFaults (Shared.objects l) (store stByUser) = Some s
  /\ exists st',
       Part000.importParsed FJson (ParsedArray l) noFaults stByUser = Ok st'
       /\ length (currentPasswords st') = 3%nat
       /\ mirrors st'.
Proof.
  intros l s.
  assert (commitAdds noFaults (Shared.objects l) (store stByUser) = Some s) as H5
      by (vm_compute; reflexivity).
  split; [exact H5|].
  assert (filterM Part000.isValid l = Ok l) as H1 by (vm_compute; reflexivity).
  assert (Shared.objects l <> []) as H2 by discriminate.
  assert (queueAdds (Shared.objects l) = (Shared.objects l, false)) as H4
      by (vm_compute; reflexivity).
  destruct (import_committed_reloads FJson l l noFaults stByUser s
              H1 H2 eq_refl eq_refl H4 H5)
    as (st' & E & _ & _ & Hm & Hlen & _).
  exists st'. split; [exact E|]. split; [|exact Hm].
  rewrite Hlen. vm_compute. reflexivity.
Defined.

Lemma trickyEntry_lineFree : Forall lineFree [trickyEntry].
Proof.
  apply Forall_cons; split; [|apply Forall_nil_2].
  repeat split; vm_compute; reflexivity.
Qed.

Lemma csv_round_trip_witness :
  Forall lineFree [trickyEntry]
  /\ Part000.parseCSV (Part000.csvText [trickyEntry])
     = [record3 "x,y.com" "eve" ("pa" ++ str1 DQUOTE ++ "ss")].
Proof.
  split; [exact trickyEntry_lineFree|].
  exact (csv_round_trip [trickyEntry] trickyEntry_lineFree).
Defined.

Lemma parseCSV_line_endings_witness :
  normalize ("a,b" ++ CRLF ++ "1,2") = normalize ("a,b" ++ str1 LF ++ "1,2")
  /\ Part000.parseCSV ("a,b" ++ CRLF ++ "1,2")
     = Part000.parseCSV ("a,b" ++ str1 LF ++ "1,2").
Proof.
  assert (normalize ("a,b" ++ CRLF ++ "1,2")
          = normalize ("a,b" ++ str1 LF ++ "1,2")) as H by reflexivity.
  split; [exact H|].
  exact (proj1 (parseCSV_line_endings _ _ H)).
Defined.

End FurtherExamples.
